(** * iter: an HTTP request router (package [iter], file iter.go)

    A shallow embedding of the router: route registration ([Handle]),
    the segment matcher ([route.match]), the dispatcher ([ServeHTTP]) and
    the middleware composition ([wrap]), followed by the properties of
    the specification that were checked against it.

    Conventions of the embedding.
    - A Go [string] is a [string] of bytes.
    - The package-level map [rxPatterns] and the route slices reached
      through the pointer [Mux.routes] live in an explicit [World]; a
      [Mux] is a value that holds the address of its route table, so that
      every copy of a [Mux] sees the same table.
    - A panic (a nil dereference, [regexp.MustCompile] on a malformed
      source) is made explicit in the result type.
    - [http.Handler] is a function on the state of the response writer:
      a handler neither panics nor registers routes.
    - [Use] returns the router with the longer middleware list in place
      of updating it behind the pointer; [Group], which copies a router
      and shares the backing array of that list, is not modelled.
    - The packages [regexp] and [unicode] are not part of the router:
      they enter through the class [GoLib].  [GoRegexp] below implements
      a fragment of the regexp syntax for the concrete examples. *)

From Stdlib Require Import ZArith Lia Bool Ascii.
From stdpp Require Import base option list gmap strings.

Local Open Scope string_scope.
Local Open Scope list_scope.
Local Open Scope nat_scope.

(** ** Package [strings] *)

Module strings.

Definition slash : ascii := "/"%char.
Definition bar : ascii := "|"%char.

(** [strings.CutPrefix(s, prefix)]: [s] without the leading [prefix],
    when it starts with it. *)
Fixpoint CutPrefix (s prefix : string) {struct prefix} : option string :=
  match prefix, s with
  | EmptyString, _ => Some s
  | String p prefix', String c s' =>
      if Ascii.eqb c p then CutPrefix s' prefix' else None
  | String _ _, EmptyString => None
  end.

(** [strings.HasPrefix(s, prefix)] *)
Definition HasPrefix (s prefix : string) : bool :=
  match CutPrefix s prefix with Some _ => true | None => false end.

(** [strings.TrimPrefix(s, prefix)] *)
Definition TrimPrefix (s prefix : string) : string :=
  match CutPrefix s prefix with Some s' => s' | None => s end.

(** [strings.HasSuffix(s, suffix)]: [suffix] is one of the tails of [s]. *)
Fixpoint HasSuffix (s suffix : string) : bool :=
  String.eqb s suffix
  || match s with
     | EmptyString => false
     | String _ s' => HasSuffix s' suffix
     end.

(** [strings.ContainsRune(s, c)] for a one-byte [c]. *)
Fixpoint ContainsRune (s : string) (c : ascii) : bool :=
  match s with
  | EmptyString => false
  | String a s' => Ascii.eqb a c || ContainsRune s' c
  end.

(** [strings.Split(s, "/")]: the substrings between the separators;
    a string without separator gives the one-element list [[s]]. *)
Fixpoint Split (s : string) : list string :=
  match s with
  | EmptyString => [EmptyString]
  | String c s' =>
      if Ascii.eqb c slash then EmptyString :: Split s'
      else match Split s' with
           | x :: xs => String c x :: xs
           | [] => [String c EmptyString]
           end
  end.

(** [strings.Cut(s, "|")]: the text before and after the first
    separator and whether it was found; [(s, "", false)] otherwise. *)
Fixpoint Cut (s : string) : string * string * bool :=
  match s with
  | EmptyString => (EmptyString, EmptyString, false)
  | String c s' =>
      if Ascii.eqb c bar then (EmptyString, s', true)
      else let '(before, after, found) := Cut s' in
           (String c before, after, found)
  end.

(** [strings.Join(elems, sep)] *)
Definition Join (elems : list string) (sep : string) : string :=
  String.concat sep elems.

(** The ASCII path of [strings.ToUpper]. *)
Fixpoint isASCII (s : string) : bool :=
  match s with
  | EmptyString => true
  | String c s' => (nat_of_ascii c <? 128)%nat && isASCII s'
  end.

Definition upperByte (c : ascii) : ascii :=
  let n := nat_of_ascii c in
  if ((97 <=? n) && (n <=? 122))%nat then ascii_of_nat (n - 32) else c.

Fixpoint mapBytes (f : ascii -> ascii) (s : string) : string :=
  match s with
  | EmptyString => EmptyString
  | String c s' => String (f c) (mapBytes f s')
  end.

End strings.

(** ** What the router takes from [regexp] and [unicode] *)

Class GoLib := {
  (** [*regexp.Regexp] *)
  Regexp : Type;
  (** [regexp.MustCompile]: [None] is the panic on a malformed source. *)
  MustCompile : string -> option Regexp;
  (** [Regexp.MatchString]: "reports whether the string s contains any
      match of the regular expression". *)
  MatchString : Regexp -> string -> bool;
  (** [strings.Map(unicode.ToUpper, s)], the path [strings.ToUpper] takes
      on a string with a byte outside ASCII. *)
  unicodeToUpper : string -> string
}.

Section Router.

Context `{GoLib}.

(** [strings.ToUpper]: ASCII-only strings are mapped byte by byte. *)
Definition ToUpper (s : string) : string :=
  if strings.isASCII s then strings.mapBytes strings.upperByte s
  else unicodeToUpper s.

(** *** [context.Context] restricted to the values stored under [key] *)

Definition context := list (string * string).

(** [context.WithValue(ctx, key(k), v)] *)
Definition WithValue (ctx : context) (k v : string) : context :=
  (k, v) :: ctx.

(** [ctx.Value(key(k))]: the most recent binding. *)
Fixpoint Value (ctx : context) (k : string) : option string :=
  match ctx with
  | [] => None
  | (k', v) :: ctx' => if String.eqb k' k then Some v else Value ctx' k
  end.

Definition Param (ctx : context) (param : string) : string :=
  match Value ctx param with
  | Some s => s
  | None => ""
  end.

(** *** [net/http]: requests, response writers, handlers *)

Record Request := {
  Method : string;
  URL_Path : string;
  Context_ : context
}.

Definition WithContext (r : Request) (ctx : context) : Request :=
  {| Method := Method r; URL_Path := URL_Path r; Context_ := ctx |}.

(** The state of an [http.ResponseWriter]: the header map, the status
    code once written, the body written so far. *)
Record ResponseWriter := {
  Header : gmap string (list string);
  Code : option nat;
  Body : string
}.

Definition Header_Set (w : ResponseWriter) (k v : string) : ResponseWriter :=
  {| Header := <[k := [v]]> (Header w); Code := Code w; Body := Body w |}.

Definition Header_Del (w : ResponseWriter) (k : string) : ResponseWriter :=
  {| Header := delete k (Header w); Code := Code w; Body := Body w |}.

(** [w.WriteHeader(code)]: only the first call counts. *)
Definition WriteHeader (w : ResponseWriter) (code : nat) : ResponseWriter :=
  match Code w with
  | Some _ => w
  | None => {| Header := Header w; Code := Some code; Body := Body w |}
  end.

(** [w.Write(b)]: writes the status 200 first when none was written. *)
Definition Write (w : ResponseWriter) (b : string) : ResponseWriter :=
  let w' := WriteHeader w 200 in
  {| Header := Header w'; Code := Code w'; Body := Body w' +:+ b |}.

Definition Handler := ResponseWriter -> Request -> ResponseWriter.

Definition StatusNotFound : nat := 404.
Definition StatusMethodNotAllowed : nat := 405.
Definition StatusNoContent : nat := 204.

Definition MethodDelete := "DELETE".
Definition MethodGet := "GET".
Definition MethodHead := "HEAD".
Definition MethodOptions := "OPTIONS".
Definition MethodPatch := "PATCH".
Definition MethodPost := "POST".
Definition MethodPut := "PUT".
Definition MethodTrace := "TRACE".

(** [http.Error(w, error, code)] *)
Definition http_Error (w : ResponseWriter) (error : string) (code : nat)
  : ResponseWriter :=
  let w := Header_Del w "Content-Length" in
  let w := Header_Set w "Content-Type" "text/plain; charset=utf-8" in
  let w := Header_Set w "X-Content-Type-Options" "nosniff" in
  let w := WriteHeader w code in
  Write w (error +:+ String (ascii_of_nat 10) EmptyString).

(** [http.NotFoundHandler()] *)
Definition NotFoundHandler : Handler :=
  fun w _ => http_Error w "404 page not found" StatusNotFound.

(** *** The router's data *)

Definition allMethods : list string :=
  [MethodDelete; MethodGet; MethodHead; MethodOptions;
   MethodPatch; MethodPost; MethodPut; MethodTrace].

Record route := {
  method : string;
  segments : list string;
  wildcard : bool;
  handler : Handler
}.

(** The address of a route slice. *)
Definition loc := nat.

Record Mux := {
  NotFound : Handler;
  MethodNotAllowed : Handler;
  Options : Handler;
  routes : loc;
  middleware : list (Handler -> Handler)
}.

Record World := {
  rxPatterns : gmap string Regexp;
  tables : gmap loc (list route)
}.

(** [New()]; [l] is the address of the fresh, empty route slice. *)
Definition New (l : loc) : Mux :=
  {| NotFound := NotFoundHandler;
     MethodNotAllowed := fun w _ =>
       http_Error w "Method Not Allowed" StatusMethodNotAllowed;
     Options := fun w _ => WriteHeader w StatusNoContent;
     routes := l;
     middleware := [] |}.

Definition New_world (l : loc) (st : World) : World :=
  {| rxPatterns := rxPatterns st; tables := <[l := []]> (tables st) |}.

Fixpoint contains (s : list string) (e : string) : bool :=
  match s with
  | [] => false
  | a :: s' => if String.eqb a e then true else contains s' e
  end.

(** [wrap]: the loop runs [i] from the last middleware down to the
    first and replaces [handler] by [m.middleware[i](handler)]. *)
Definition wrap (m : Mux) (handler : Handler) : Handler :=
  fold_left (fun h mw => mw h) (rev (middleware m)) handler.

(** [Use] *)
Definition Use (m : Mux) (mws : list (Handler -> Handler)) : Mux :=
  {| NotFound := NotFound m;
     MethodNotAllowed := MethodNotAllowed m;
     Options := Options m;
     routes := routes m;
     middleware := middleware m ++ mws |}.

(** *** [route.match]

    One iteration of the loop over [r.segments] either goes on to the
    next segment ([continue] or the end of the body), returns, or
    panics. *)

Inductive flow :=
| Continue (ctx : context)
| Return (ctx : context) (ok : bool)
| Panic.

(** The loop body for the route segment [segment] at index [i].
    [rxPatterns[rxPattern]] is [nil] for a source that was never
    compiled, and [MatchString] on it panics. *)
Definition match_segment (rx : gmap string Regexp) (i : nat) (segment : string)
    (ctx : context) (urlSegments : list string) : flow :=
  if (Z.of_nat i >? Z.of_nat (length urlSegments) - 1)%Z then Return ctx false
  else if String.eqb segment "..." then
    Return (WithValue ctx "..." (strings.Join (drop i urlSegments) "/")) true
  else
    match urlSegments !! i with
    | None => Panic
    | Some u =>
        if strings.HasPrefix segment ":" then
          let '(k, rxPattern, containsRx) :=
            strings.Cut (strings.TrimPrefix segment ":") in
          if containsRx then
            match rx !! rxPattern with
            | None => Panic
            | Some re =>
                if MatchString re u then Continue (WithValue ctx k u)
                else Return ctx false
            end
          else if negb (String.eqb u "") then Continue (WithValue ctx k u)
          else Return ctx false
        else if negb (String.eqb u segment) then Return ctx false
        else Continue ctx
    end.

(** The loop, from index [i] on; running off its end is [return ctx, true]. *)
Fixpoint match_loop (rx : gmap string Regexp) (segs : list string) (i : nat)
    (ctx : context) (urlSegments : list string) : option (context * bool) :=
  match segs with
  | [] => Some (ctx, true)
  | segment :: segs' =>
      match match_segment rx i segment ctx urlSegments with
      | Continue ctx' => match_loop rx segs' (S i) ctx' urlSegments
      | Return ctx' ok => Some (ctx', ok)
      | Panic => None
      end
  end.

(** [func (r *route) match(ctx, urlSegments)]; [None] is a panic. *)
Definition route_match (rx : gmap string Regexp) (r : route) (ctx : context)
    (urlSegments : list string) : option (context * bool) :=
  if negb (wildcard r)
     && negb (length urlSegments =? length (segments r))%nat
  then Some (ctx, false)
  else match_loop rx (segments r) 0 ctx urlSegments.

(** *** [Handle] *)

Inductive outcome :=
| Done (st : World)
| Panicked (st : World).

Definition world_of (o : outcome) : World :=
  match o with Done st | Panicked st => st end.

Definition mkRoute (m : Mux) (pattern : string) (handler : Handler)
    (method : string) : route :=
  {| method := ToUpper method;
     segments := strings.Split pattern;
     wildcard := strings.HasSuffix pattern "/...";
     handler := wrap m handler |}.

(** The first loop: one route per method, appended to [*m.routes]. *)
Fixpoint Handle_routes (m : Mux) (pattern : string) (handler : Handler)
    (methods : list string) (st : World) : outcome :=
  match methods with
  | [] => Done st
  | method :: methods' =>
      match tables st !! routes m with
      | None => Panicked st
      | Some rs =>
          Handle_routes m pattern handler methods'
            {| rxPatterns := rxPatterns st;
               tables := <[routes m := rs ++ [mkRoute m pattern handler method]]>
                           (tables st) |}
      end
  end.

(** The second loop: the regular expressions of the pattern are
    compiled into [rxPatterns]. *)
Fixpoint Handle_compile (segs : list string) (st : World) : outcome :=
  match segs with
  | [] => Done st
  | segment :: segs' =>
      if strings.HasPrefix segment ":" then
        let '(_, rxPattern, containsRx) := strings.Cut segment in
        if containsRx then
          match MustCompile rxPattern with
          | None => Panicked st
          | Some re =>
              Handle_compile segs'
                {| rxPatterns := <[rxPattern := re]> (rxPatterns st);
                   tables := tables st |}
          end
        else Handle_compile segs' st
      else Handle_compile segs' st
  end.

Definition Handle_methods (methods : list string) : list string :=
  let methods := if (length methods =? 0)%nat then allMethods else methods in
  if contains methods MethodGet && negb (contains methods MethodHead)
  then methods ++ [MethodGet]
  else methods.

Definition Handle (m : Mux) (pattern : string) (handler : Handler)
    (methods : list string) (st : World) : outcome :=
  match Handle_routes m pattern handler (Handle_methods methods) st with
  | Done st' => Handle_compile (strings.Split pattern) st'
  | Panicked st' => Panicked st'
  end.

(** *** [ServeHTTP] *)

(** After the loop: 405 or the automatic OPTIONS answer when some path
    matched, 404 otherwise. *)
Definition ServeHTTP_rest (m : Mux) (w : ResponseWriter) (r : Request)
    (allowedMethods : list string) : ResponseWriter :=
  if (0 <? length allowedMethods)%nat then
    let w := Header_Set w "Allow"
               (strings.Join (allowedMethods ++ [MethodOptions]) ",") in
    if String.eqb (Method r) MethodOptions then wrap m (Options m) w r
    else wrap m (MethodNotAllowed m) w r
  else wrap m (NotFound m) w r.

(** The loop over [*m.routes]. *)
Fixpoint ServeHTTP_loop (m : Mux) (rx : gmap string Regexp)
    (w : ResponseWriter) (r : Request) (segments : list string)
    (rs : list route) (allowedMethods : list string) : option ResponseWriter :=
  match rs with
  | [] => Some (ServeHTTP_rest m w r allowedMethods)
  | route :: rs' =>
      match route_match rx route (Context_ r) segments with
      | None => None
      | Some (ctx, ok) =>
          if ok then
            if String.eqb (Method r) (method route) then
              Some (handler route w (WithContext r ctx))
            else
              ServeHTTP_loop m rx w r segments rs'
                (if negb (contains allowedMethods (method route))
                 then allowedMethods ++ [method route]
                 else allowedMethods)
          else ServeHTTP_loop m rx w r segments rs' allowedMethods
      end
  end.

(** [None] is a panic: a nil route table, or [match] on a regular
    expression that is not in [rxPatterns]. *)
Definition ServeHTTP (m : Mux) (st : World) (w : ResponseWriter) (r : Request)
    : option ResponseWriter :=
  match tables st !! routes m with
  | None => None
  | Some rs =>
      ServeHTTP_loop m (rxPatterns st) w r (strings.Split (URL_Path r)) rs []
  end.

(** *** Vocabulary of the statements *)

(** The path of the request matches the route. *)
Definition path_ok (rx : gmap string Regexp) (ctx : context)
    (urlSegments : list string) (r : route) : bool :=
  match route_match rx r ctx urlSegments with
  | Some (_, ok) => ok
  | None => false
  end.

(** A list without its repetitions, every element at the place of its
    first occurrence. *)
Fixpoint first_occurrences (l : list string) : list string :=
  match l with
  | [] => []
  | x :: l' => x :: filter (fun y => y ≠ x) (first_occurrences l')
  end.

(** The routes whose path matches the request, in the order of the
    table, and their methods without repetition. *)
Definition hits (rx : gmap string Regexp) (r : Request) (rs : list route)
  : list route :=
  filter
    (fun rt => path_ok rx (Context_ r) (strings.Split (URL_Path r)) rt = true)
    rs.

Definition allowed_methods (rx : gmap string Regexp) (r : Request)
    (rs : list route) : list string :=
  first_occurrences (method <$> hits rx r rs).

(** Every regular expression of the routes [rs] is in [rx]. *)
Definition compiled (rx : gmap string Regexp) (rs : list route) : Prop :=
  ∀ r segment k rxPattern,
    r ∈ rs → segment ∈ segments r →
    strings.HasPrefix segment ":" = true →
    strings.Cut (strings.TrimPrefix segment ":") = (k, rxPattern, true) →
    is_Some (rx !! rxPattern).

Definition World_ok (st : World) : Prop :=
  ∀ l rs, tables st !! l = Some rs → compiled (rxPatterns st) rs.

(** A middleware that does [before] on the way in and [after] on the
    way out. *)
Definition around (before after : ResponseWriter -> ResponseWriter)
  : Handler -> Handler :=
  fun next w r => after (next (before w) r).

End Router.

(** ** A model of [regexp] for the examples

    The syntax tree follows [regexp/syntax]; the parser accepts literals,
    [.], [^], [$], bracket classes with ranges and negation, [\d], [\w],
    [\s], escaped punctuation, groups, alternation and the operators
    [*], [+], [?] (also in their non-greedy spelling).  Counted
    repetition, flags and named classes are outside the fragment and are
    rejected; text is matched byte by byte, which agrees with Go on
    ASCII. *)

Module GoRegexp.

Inductive re :=
| EmptyMatch
| Literal (c : ascii)
| AnyCharNotNL
| CharClass (negated : bool) (ranges : list (ascii * ascii))
| Concat (r1 r2 : re)
| Alternate (r1 r2 : re)
| Star (r : re)
| BeginText
| EndText.

Definition inRange (c : ascii) (range : ascii * ascii) : bool :=
  (nat_of_ascii (fst range) <=? nat_of_ascii c)%nat
  && (nat_of_ascii c <=? nat_of_ascii (snd range))%nat.

Definition inClass (negated : bool) (ranges : list (ascii * ascii))
    (c : ascii) : bool :=
  xorb negated (existsb (inRange c) ranges).

Definition newline : ascii := ascii_of_nat 10.

(** A backtracking matcher in continuation style.  [bot] tells whether
    the position is the beginning of the text, [s] is the text that is
    left, and [k] receives both once [r] has matched a prefix of [s].
    An iteration of a star has to consume at least one byte. *)
Fixpoint run (r : re) (k : bool -> string -> bool) (bot : bool) (s : string)
    : bool :=
  match r with
  | EmptyMatch => k bot s
  | Literal c =>
      match s with
      | String a s' => if Ascii.eqb a c then k false s' else false
      | EmptyString => false
      end
  | AnyCharNotNL =>
      match s with
      | String a s' => if Ascii.eqb a newline then false else k false s'
      | EmptyString => false
      end
  | CharClass negated ranges =>
      match s with
      | String a s' => if inClass negated ranges a then k false s' else false
      | EmptyString => false
      end
  | Concat r1 r2 => run r1 (fun bot' s' => run r2 k bot' s') bot s
  | Alternate r1 r2 => run r1 k bot s || run r2 k bot s
  | Star r1 =>
      (fix iterate (fuel : nat) (bot : bool) (s : string) : bool :=
         k bot s
         || match fuel with
            | O => false
            | S fuel' =>
                run r1
                  (fun bot' s' =>
                     if (String.length s' <? String.length s)%nat
                     then iterate fuel' bot' s' else false)
                  bot s
            end) (String.length s) bot s
  | BeginText => if bot then k bot s else false
  | EndText => match s with EmptyString => k bot s | _ => false end
  end.

(** The regular expression matches the whole of [s]. *)
Definition FullMatch (r : re) (s : string) : bool :=
  run r (fun _ rest => String.eqb rest "") true s.

(** Some substring of [s], starting at the current position or later,
    matches. *)
Fixpoint search (r : re) (bot : bool) (s : string) : bool :=
  run r (fun _ _ => true) bot s
  || match s with
     | EmptyString => false
     | String _ s' => search r false s'
     end.

Definition MatchString (r : re) (s : string) : bool := search r true s.

(** *** The parser *)

Definition isPunct (c : ascii) : bool :=
  let n := nat_of_ascii c in
  ((33 <=? n) && (n <=? 47) || (58 <=? n) && (n <=? 64)
   || (91 <=? n) && (n <=? 96) || (123 <=? n) && (n <=? 126))%nat.

Definition digits : list (ascii * ascii) := [("0"%char, "9"%char)].
Definition wordChars : list (ascii * ascii) :=
  [("0"%char, "9"%char); ("A"%char, "Z"%char); ("_"%char, "_"%char);
   ("a"%char, "z"%char)].
Definition spaces : list (ascii * ascii) :=
  [(ascii_of_nat 9, ascii_of_nat 10); (ascii_of_nat 12, ascii_of_nat 13);
   (" "%char, " "%char)].

(** The class named by the byte after a backslash. *)
Definition perlClass (c : ascii) : option re :=
  if Ascii.eqb c "d" then Some (CharClass false digits)
  else if Ascii.eqb c "D" then Some (CharClass true digits)
  else if Ascii.eqb c "w" then Some (CharClass false wordChars)
  else if Ascii.eqb c "W" then Some (CharClass true wordChars)
  else if Ascii.eqb c "s" then Some (CharClass false spaces)
  else if Ascii.eqb c "S" then Some (CharClass true spaces)
  else None.

(** The items of a bracket class up to the closing bracket.  A named
    class, which opens with a bracket and a colon, is outside the
    fragment. *)
Fixpoint parseClassItems (s : string) (acc : list (ascii * ascii))
    : option (list (ascii * ascii) * string) :=
  match s with
  | EmptyString => None
  | String c s' =>
      if Ascii.eqb c "]" then
        match acc with [] => None | _ => Some (rev acc, s') end
      else if Ascii.eqb c "\" then
        match s' with
        | String e s'' =>
            if isPunct e then parseClassItems s'' ((e, e) :: acc) else None
        | EmptyString => None
        end
      else if Ascii.eqb c "["
              && match s' with
                 | String d _ => Ascii.eqb d ":"
                 | EmptyString => false
                 end
      then None
      else
        match s' with
        | String d (String hi s'') =>
            if Ascii.eqb d "-" && negb (Ascii.eqb hi "]") then
              if Ascii.eqb hi "\" then None
              else if (nat_of_ascii c <=? nat_of_ascii hi)%nat
              then parseClassItems s'' ((c, hi) :: acc)
              else None
            else parseClassItems s' ((c, c) :: acc)
        | _ => parseClassItems s' ((c, c) :: acc)
        end
  end.

Definition parseClass (s : string) : option (re * string) :=
  let '(negated, s) :=
    match s with
    | String c s' => if Ascii.eqb c "^" then (true, s') else (false, s)
    | EmptyString => (false, s)
    end in
  match parseClassItems s [] with
  | Some (ranges, rest) => Some (CharClass negated ranges, rest)
  | None => None
  end.

Definition isRepeatOp (c : ascii) : bool :=
  Ascii.eqb c "*" || Ascii.eqb c "+" || Ascii.eqb c "?".

(** An atom followed by at most one repetition operator, which may be
    marked non-greedy; a second operator is an error. *)
Definition parsePostfix (a : re) (s : string) : option (re * string) :=
  match s with
  | String op s' =>
      if isRepeatOp op then
        let r := if Ascii.eqb op "*" then Star a
                 else if Ascii.eqb op "+" then Concat a (Star a)
                 else Alternate a EmptyMatch in
        let rest := match s' with
                    | String q s'' => if Ascii.eqb q "?" then s'' else s'
                    | EmptyString => s'
                    end in
        match rest with
        | String c _ => if isRepeatOp c then None else Some (r, rest)
        | EmptyString => Some (r, rest)
        end
      else Some (a, s)
  | EmptyString => Some (a, s)
  end.

Fixpoint parseAlternate (fuel : nat) (s : string) : option (re * string) :=
  match fuel with
  | O => None
  | S n =>
      match parseConcat n s with
      | Some (r1, String c s') =>
          if Ascii.eqb c "|" then
            match parseAlternate n s' with
            | Some (r2, rest) => Some (Alternate r1 r2, rest)
            | None => None
            end
          else Some (r1, String c s')
      | other => other
      end
  end
with parseConcat (fuel : nat) (s : string) : option (re * string) :=
  match fuel with
  | O => None
  | S n =>
      match s with
      | EmptyString => Some (EmptyMatch, s)
      | String c _ =>
          if Ascii.eqb c "|" || Ascii.eqb c ")" then Some (EmptyMatch, s)
          else
            match parseAtom n s with
            | Some (a, rest) =>
                match parsePostfix a rest with
                | Some (r1, rest') =>
                    match parseConcat n rest' with
                    | Some (r2, rest'') => Some (Concat r1 r2, rest'')
                    | None => None
                    end
                | None => None
                end
            | None => None
            end
      end
  end
with parseAtom (fuel : nat) (s : string) : option (re * string) :=
  match fuel with
  | O => None
  | S n =>
      match s with
      | EmptyString => None
      | String c s' =>
          if Ascii.eqb c "(" then
            match parseAlternate n s' with
            | Some (r, String c' rest) =>
                if Ascii.eqb c' ")" then Some (r, rest) else None
            | _ => None
            end
          else if Ascii.eqb c "[" then parseClass s'
          else if Ascii.eqb c "." then Some (AnyCharNotNL, s')
          else if Ascii.eqb c "^" then Some (BeginText, s')
          else if Ascii.eqb c "$" then Some (EndText, s')
          else if Ascii.eqb c "\" then
            match s' with
            | String e s'' =>
                if isPunct e then Some (Literal e, s'')
                else match perlClass e with
                     | Some r => Some (r, s'')
                     | None => None
                     end
            | EmptyString => None
            end
          else if isRepeatOp c || Ascii.eqb c "{" then None
          else Some (Literal c, s')
      end
  end.

Definition MustCompile (src : string) : option re :=
  match parseAlternate (4 * String.length src + 8) src with
  | Some (r, EmptyString) => Some r
  | _ => None
  end.

End GoRegexp.

(** The instance the examples run on.  Their method names are ASCII, so
    that [strings.ToUpper] never reaches [unicodeToUpper]. *)
#[local] Instance goLib : GoLib :=
  {| Regexp := GoRegexp.re;
     MustCompile := GoRegexp.MustCompile;
     MatchString := GoRegexp.MatchString;
     unicodeToUpper := fun s => s |}.

(** ** Data of the examples *)

Definition emptyWorld : World := {| rxPatterns := ∅; tables := ∅ |}.

(** A router made by [New()], its route slice at address 0. *)
Definition mux0 : Mux := New 0.
Definition world0 : World := New_world 0 emptyWorld.

(** A handler that writes [text] to the body. *)
Definition say (text : string) : Handler := fun w _ => Write w text.

(** A middleware that brackets what its inner handler writes. *)
Definition tag (name : string) : Handler -> Handler :=
  around (fun w => Write w (name +:+ ">")) (fun w => Write w ("<" +:+ name)).

(** A response writer nothing was written to. *)
Definition recorder : ResponseWriter :=
  {| Header := ∅; Code := None; Body := "" |}.

Definition request (method path : string) : Request :=
  {| Method := method; URL_Path := path; Context_ := [] |}.

(** The world after [mux0.Handle(pattern, handler, methods...)]. *)
Definition registered (pattern : string) (handler : Handler)
    (methods : list string) (st : World) : World :=
  world_of (Handle mux0 pattern handler methods st).

Definition usersWorld : World :=
  registered "/users/:id|[0-9]+" (say "user") ["POST"] world0.

Definition usersRoute : route :=
  mkRoute mux0 "/users/:id|[0-9]+" (say "user") "POST".

(** The regular expression of [usersRoute], compiled. *)
Definition digitsRe : GoRegexp.re :=
  match GoRegexp.MustCompile "[0-9]+" with
  | Some re => re
  | None => GoRegexp.EmptyMatch
  end.

Definition filesRoute : route := mkRoute mux0 "/files/..." (say "files") "GET".

Definition staticRoute : route :=
  mkRoute mux0 "/static/:dir/..." (say "static") "GET".

(** The pattern [/dup] registered twice for [POST], after another route. *)
Definition dupWorld : World :=
  registered "/dup" (say "second") ["POST"]
    (registered "/dup" (say "first") ["POST"]
       (registered "/other" (say "other") ["POST"] world0)).

Definition widgetsWorld : World :=
  registered "/widgets" (say "widgets") ["GET"; "POST"] world0.

Definition optionsWorld : World :=
  registered "/opt" (say "opt") ["OPTIONS"] world0.

Definition helloWorld : World :=
  registered "/hello" (say "hello") ["POST"] world0.

(** A handler that writes the value [Param] reads under [name] in the
    context of its request. *)
Definition echo (name : string) : Handler :=
  fun w r => Write w (Param (Context_ r) name).

Definition echoWorld : World :=
  registered "/users/:id" (echo "id") ["POST"] world0.

(** ** Vocabulary of the further properties *)

Section Invariants.

Context `{GoLib}.

(** The key under which the iteration of [match] on a route segment
    stores a value, when it stores one: [...] for the wildcard marker,
    the text between the colon and the first bar for a parameter. *)
Definition segment_key (segment : string) : option string :=
  if String.eqb segment "..." then Some "..."
  else if strings.HasPrefix segment ":" then
    Some (strings.Cut (strings.TrimPrefix segment ":")).1.1
  else None.

(** A segment that [match] compares with the request segment. *)
Definition literal (segment : string) : bool :=
  negb (String.eqb segment "...") && negb (strings.HasPrefix segment ":").

(** The context that [match] returns for the route, the context of the
    request where [match] panics. *)
Definition bound_context (rx : gmap string Regexp) (r : Request) (rt : route)
  : context :=
  match route_match rx rt (Context_ r) (strings.Split (URL_Path r)) with
  | Some (ctx, _) => ctx
  | None => Context_ r
  end.

(** [rxPatterns] holds under a source its own compilation. *)
Definition cache_sound (rx : gmap string Regexp) : Prop :=
  ∀ src re, rx !! src = Some re → MustCompile src = Some re.

(** The pattern has a parameter whose regular expression does not
    compile. *)
Definition malformed (pattern : string) : Prop :=
  ∃ segment k src,
    segment ∈ strings.Split pattern
    ∧ strings.HasPrefix segment ":" = true
    ∧ strings.Cut segment = (k, src, true)
    ∧ MustCompile src = None.

(** The worlds a program reaches from the empty one by calls of [New]
    and by calls of [Handle] that return. *)
Inductive built : World → Prop :=
| built_empty : built {| rxPatterns := ∅; tables := ∅ |}
| built_New (a : loc) (st : World) :
    built st → tables st !! a = None → built (New_world a st)
| built_Handle (m : Mux) (pattern : string) (h : Handler)
    (methods : list string) (st st' : World) :
    built st → Handle m pattern h methods st = Done st' → built st'.

(** The text has an ASCII lower-case letter. *)
Fixpoint hasLower (s : string) : bool :=
  match s with
  | EmptyString => false
  | String c s' =>
      ((97 <=? nat_of_ascii c) && (nat_of_ascii c <=? 122)) || hasLower s'
  end.

End Invariants.

(** A pattern whose regular expression is malformed, registered all the
    same: the state in which [Handle] panics. *)
Definition brokenWorld : World :=
  registered "/x/:id|(" (say "x") ["POST"] world0.

Definition twoIdsRoute : route := mkRoute mux0 "/:id/:id" (say "ids") "GET".

Definition lowerWorld : World := registered "/p" (say "p") ["get"] world0.

(** * Properties *)

(** ** Package [strings] *)

Lemma HasPrefix_colon s : strings.HasPrefix (String ":" s) ":" = true.
Proof. reflexivity. Qed.

Lemma TrimPrefix_colon s : strings.TrimPrefix (String ":" s) ":" = s.
Proof. reflexivity. Qed.

Lemma Split_nonempty s : strings.Split s ≠ [].
Proof.
  destruct s as [|c s]; simpl; [done|].
  destruct (Ascii.eqb c strings.slash); [done|].
  by destruct (strings.Split s).
Qed.

(** Splitting distributes over a separator. *)
Lemma Split_app_slash p q :
  strings.Split (p +:+ String strings.slash q)
  = strings.Split p ++ strings.Split q.
Proof.
  induction p as [|c p IH]; simpl.
  - reflexivity.
  - rewrite IH. destruct (Ascii.eqb c strings.slash); [done|].
    pose proof (Split_nonempty p) as Hp.
    destruct (strings.Split p) as [|x xs]; [done|]. reflexivity.
Qed.

Lemma Join_Split s : strings.Join (strings.Split s) "/" = s.
Proof.
  unfold strings.Join. induction s as [|c s IH]; simpl; [done|].
  destruct (Ascii.eqb_spec c strings.slash) as [->|Hc].
  - pose proof (Split_nonempty s) as Hs.
    destruct (strings.Split s) as [|x xs]; [done|].
    simpl in *. by rewrite IH.
  - pose proof (Split_nonempty s) as Hs.
    destruct (strings.Split s) as [|x xs]; [done|].
    destruct xs as [|y ys]; simpl in *; by rewrite <- IH.
Qed.

Lemma Cut_bar name rxPattern :
  strings.ContainsRune name strings.bar = false →
  strings.Cut (name +:+ String strings.bar rxPattern) = (name, rxPattern, true).
Proof.
  induction name as [|c name IH]; simpl; intros Hn.
  - reflexivity.
  - apply orb_false_iff in Hn as [Hc Hn]. rewrite Hc, (IH Hn). reflexivity.
Qed.

Lemma Cut_no_bar name :
  strings.ContainsRune name strings.bar = false →
  strings.Cut name = (name, "", false).
Proof.
  induction name as [|c name IH]; simpl; intros Hn.
  - reflexivity.
  - apply orb_false_iff in Hn as [Hc Hn]. rewrite Hc, (IH Hn). reflexivity.
Qed.

Lemma HasSuffix_app p suffix : strings.HasSuffix (p +:+ suffix) suffix = true.
Proof.
  induction p as [|c p IH]; simpl.
  - destruct suffix; simpl; rewrite ?Ascii.eqb_refl, ?String.eqb_refl; done.
  - rewrite IH. apply orb_true_r.
Qed.

(** A pattern that ends in [/...] has the wildcard marker among its
    segments, after the first one. *)
Lemma HasSuffix_wildcard_Split s :
  strings.HasSuffix s "/..." = true →
  ∃ x xs, strings.Split s = x :: xs ∧ "..." ∈ xs.
Proof.
  induction s as [|c s IH]; simpl; [done|].
  intros Hs. apply orb_true_iff in Hs as [Hs|Hs].
  - change (String.eqb (String c s) "/..." = true) in Hs.
    apply String.eqb_eq in Hs. injection Hs as -> ->. simpl.
    exists "", ["..."]. split; [done|]. apply list_elem_of_here.
  - destruct (IH Hs) as (x & xs & Hx & Hin). rewrite Hx.
    destruct (Ascii.eqb c strings.slash).
    + exists "", (x :: xs). split; [done|]. by apply list_elem_of_further.
    + by exists (String c x), xs.
Qed.

(** ** The matcher *)

Section Matcher.

Context `{GoLib}.

Implicit Types (rx : gmap string Regexp) (ctx : context).
Implicit Types (url pre post : list string).

Lemma index_in_range i url u :
  url !! i = Some u → (Z.of_nat i >? Z.of_nat (length url) - 1)%Z = false.
Proof. intros Hu%lookup_lt_Some. lia. Qed.

Lemma index_out_of_range i url :
  length url ≤ i → (Z.of_nat i >? Z.of_nat (length url) - 1)%Z = true.
Proof. intros Hi. lia. Qed.

(** The iteration on the wildcard marker. *)
Lemma match_segment_wildcard rx i ctx url :
  match_segment rx i "..." ctx url =
    if (i <? length url)%nat
    then Return (WithValue ctx "..." (strings.Join (drop i url) "/")) true
    else Return ctx false.
Proof.
  unfold match_segment. destruct (Nat.ltb_spec i (length url)) as [Hi|Hi].
  - destruct (lookup_lt_is_Some_2 url i Hi) as [u Hu].
    by rewrite (index_in_range _ _ _ Hu).
  - by rewrite (index_out_of_range _ _ Hi).
Qed.

(** Any other segment lets the loop go on or fails. *)
Lemma match_segment_other rx i segment ctx url :
  segment ≠ "..." →
  match match_segment rx i segment ctx url with
  | Return _ ok => ok = false
  | _ => True
  end.
Proof.
  intros Hseg%String.eqb_neq. unfold match_segment. rewrite Hseg.
  destruct (_ >? _)%Z; [done|].
  destruct (url !! i) as [u|]; [|done].
  destruct (strings.HasPrefix segment ":").
  - destruct (strings.Cut _) as [[k rxPattern] [|]].
    + destruct (rx !! rxPattern) as [re|]; [|done].
      by destruct (MatchString re u).
    + by destruct (negb _).
  - by destruct (negb _).
Qed.

(** An iteration within the request does not look at what follows. *)
Lemma match_segment_url_app rx i segment ctx url tail :
  segment ≠ "..." → i < length url →
  match_segment rx i segment ctx (url ++ tail)
  = match_segment rx i segment ctx url.
Proof.
  intros Hseg%String.eqb_neq Hi. unfold match_segment. rewrite Hseg.
  destruct (lookup_lt_is_Some_2 url i Hi) as [u Hu].
  rewrite (index_in_range _ _ _ Hu).
  rewrite (index_in_range i (url ++ tail) u), lookup_app_l, Hu; try done.
  by rewrite lookup_app_l.
Qed.

Lemma match_loop_app rx pre post i ctx url :
  "..." ∉ pre →
  match_loop rx (pre ++ post) i ctx url =
    match match_loop rx pre i ctx url with
    | Some (ctx', true) => match_loop rx post (i + length pre) ctx' url
    | other => other
    end.
Proof.
  revert i ctx. induction pre as [|segment pre IH]; intros i ctx Hpre; simpl.
  - by rewrite Nat.add_0_r.
  - apply not_elem_of_cons in Hpre as [Hseg Hpre].
    pose proof (match_segment_other rx i segment ctx url (not_eq_sym Hseg))
      as Hother.
    destruct (match_segment rx i segment ctx url) as [ctx1|ctx1 ok|].
    + rewrite (IH _ _ Hpre). by replace (S i + length pre) with (i + S (length pre)) by lia.
    + by subst ok.
    + done.
Qed.

Lemma match_loop_url_app rx pre i ctx url tail :
  "..." ∉ pre → i + length pre ≤ length url →
  match_loop rx pre i ctx (url ++ tail) = match_loop rx pre i ctx url.
Proof.
  revert i ctx. induction pre as [|segment pre IH]; intros i ctx Hpre Hlen;
    simpl in *; [done|].
  apply not_elem_of_cons in Hpre as [Hseg Hpre].
  rewrite match_segment_url_app by (done || lia).
  destruct (match_segment rx i segment ctx url); try done.
  apply IH; [done|lia].
Qed.

(** A route without wildcard matches only requests that have as many
    segments as it has. *)
Lemma route_match_exact rx r ctx ctx' url :
  wildcard r = false →
  route_match rx r ctx url = Some (ctx', true) →
  length url = length (segments r)
  ∧ match_loop rx (segments r) 0 ctx url = Some (ctx', true).
Proof.
  unfold route_match. intros ->. simpl.
  destruct (Nat.eqb_spec (length url) (length (segments r))); simpl; [done|].
  intros [=].
Qed.

(** C8: an unconstrained parameter segment [:name] matches the request
    segment at its index exactly when that segment is not empty, and
    then binds [name] to it: the context that the iteration hands on
    is the old one with the pair of the name and the segment in front,
    and [Value] and [Param] read the segment back under the name.  So
    the request path [/users/] does not match the pattern [/users/:id],
    and [/users/42] matches it with [id] bound to [42], which [Param]
    reads back from the returned context; both whatever the router,
    the handler, the method, the context of the request and the
    regular expressions compiled so far. *)
Theorem unconstrained_param_needs_nonempty_segment :
  (∀ rx name i ctx url u,
     strings.ContainsRune name strings.bar = false →
     url !! i = Some u →
     match_segment rx i (String ":" name) ctx url =
       if String.eqb u "" then Return ctx false
       else Continue (WithValue ctx name u))
  ∧ (∀ rx m h me ctx,
       route_match rx (mkRoute m "/users/:id" h me) ctx
         (strings.Split "/users/") = Some (ctx, false))
  ∧ (∀ rx m h me ctx,
       route_match rx (mkRoute m "/users/:id" h me) ctx
         (strings.Split "/users/42") = Some (WithValue ctx "id" "42", true))
  ∧ (∀ rx name i ctx url u,
       strings.ContainsRune name strings.bar = false →
       url !! i = Some u →
       u ≠ "" →
       ∃ ctx',
         match_segment rx i (String ":" name) ctx url = Continue ctx'
         ∧ ctx' = (name, u) :: ctx
         ∧ Value ctx' name = Some u
         ∧ Param ctx' name = u)
  ∧ (∀ rx m h me ctx,
       ∃ ctx',
         route_match rx (mkRoute m "/users/:id" h me) ctx
           (strings.Split "/users/42") = Some (ctx', true)
         ∧ ctx' = ("id", "42") :: ctx
         ∧ Value ctx' "id" = Some "42"
         ∧ Param ctx' "id" = "42").
Proof.
  assert (Hstep : ∀ rx name i ctx url u,
     strings.ContainsRune name strings.bar = false →
     url !! i = Some u →
     match_segment rx i (String ":" name) ctx url =
       if String.eqb u "" then Return ctx false
       else Continue (WithValue ctx name u)).
  { intros rx name i ctx url u Hname Hu. unfold match_segment.
    rewrite (index_in_range _ _ _ Hu), Hu. simpl.
    rewrite ?HasPrefix_colon, ?TrimPrefix_colon, (Cut_no_bar _ Hname).
    by destruct (String.eqb u ""). }
  split; [exact Hstep|]. split; [reflexivity|]. split; [reflexivity|]. split.
  - intros rx name i ctx url u Hname Hu Hne.
    exists ((name, u) :: ctx). rewrite (Hstep _ _ _ _ _ _ Hname Hu).
    apply String.eqb_neq in Hne. rewrite Hne.
    unfold Param. simpl. by rewrite String.eqb_refl.
  - intros rx m h me ctx. exists (("id", "42") :: ctx).
    repeat split; reflexivity.
Qed.

(** C2, as the code has it: a parameter segment [:name|regex] matches
    the request segment at its index exactly when [MatchString] of the
    compiled regular expression holds of it, that is when the
    expression matches somewhere in the segment; the name is then
    bound to the whole segment. *)
Theorem regex_param_matches_by_search rx name rxPattern re i ctx url u :
  strings.ContainsRune name strings.bar = false →
  url !! i = Some u →
  rx !! rxPattern = Some re →
  match_segment rx i (String ":" (name +:+ String strings.bar rxPattern))
    ctx url =
    if MatchString re u then Continue (WithValue ctx name u)
    else Return ctx false.
Proof.
  intros Hname Hu Hre. unfold match_segment.
  rewrite (index_in_range _ _ _ Hu), Hu. simpl.
  rewrite ?HasPrefix_colon, ?TrimPrefix_colon, (Cut_bar _ _ Hname), Hre.
  reflexivity.
Qed.

(** C9, as the code has it: once the segments before a marker [...]
    have matched, the iteration on the marker ends the match whatever
    follows it in the route; it succeeds and binds the key [...] to the
    rest of the request joined by [/] when the request has a segment at
    that index, and fails when the request has none.  The flag
    [wildcard] only switches off the comparison of the segment counts,
    and a route without the flag that passed the comparison always has
    a request segment at the index of its marker. *)
Theorem wildcard_marker_ends_the_match rx ctx url :
  (∀ pre post i ctx',
     "..." ∉ pre →
     match_loop rx pre i ctx url = Some (ctx', true) →
     match_loop rx (pre ++ "..." :: post) i ctx url =
       if (i + length pre <? length url)
       then Some (WithValue ctx' "..."
                    (strings.Join (drop (i + length pre) url) "/"), true)
       else Some (ctx', false))
  ∧ (∀ r,
       route_match rx r ctx url =
         if negb (wildcard r) && negb (length url =? length (segments r))
         then Some (ctx, false)
         else route_match rx
                {| method := method r; segments := segments r;
                   wildcard := true; handler := handler r |} ctx url)
  ∧ (∀ r pre post ctx',
       wildcard r = false →
       segments r = pre ++ "..." :: post →
       "..." ∉ pre →
       length url = length (segments r) →
       match_loop rx pre 0 ctx url = Some (ctx', true) →
       route_match rx r ctx url =
         Some (WithValue ctx' "..."
                 (strings.Join (drop (length pre) url) "/"), true)).
Proof.
  assert (Hreach : ∀ pre post i ctx',
     "..." ∉ pre →
     match_loop rx pre i ctx url = Some (ctx', true) →
     match_loop rx (pre ++ "..." :: post) i ctx url =
       if (i + length pre <? length url)
       then Some (WithValue ctx' "..."
                    (strings.Join (drop (i + length pre) url) "/"), true)
       else Some (ctx', false)).
  { intros pre post i ctx' Hpre Hrun.
    rewrite (match_loop_app _ _ _ _ _ _ Hpre), Hrun. simpl.
    rewrite match_segment_wildcard. by destruct (_ <? _). }
  split; [exact Hreach|split].
  - intros r. unfold route_match. simpl.
    by destruct (negb (wildcard r) && _).
  - intros r pre post ctx' Hw Hsegs Hpre Hlen Hrun.
    unfold route_match. rewrite Hw, Hlen, Nat.eqb_refl. simpl.
    rewrite Hsegs, (Hreach _ _ _ _ Hpre Hrun). simpl.
    rewrite Hlen, Hsegs, length_app. simpl.
    destruct (Nat.ltb_spec (length pre) (length pre + S (length post)));
      [done|lia].
Qed.

(** C3, as the code has it: let a request path match the pattern [p],
    which has no marker [...] among its segments.  The wildcard route
    [p/...] does not match that path, since the request has no segment
    at the index of the marker; it matches the path followed by [/] and
    any text [t], an empty one too, and binds the key [...] to [t].  So
    [/files/...] matches [/files/] with the key bound to the empty
    string and does not match [/files]. *)
Theorem wildcard_needs_a_trailing_segment rx m p h me ctx ctx' u :
  "..." ∉ strings.Split p →
  route_match rx (mkRoute m p h me) ctx (strings.Split u) = Some (ctx', true) →
  route_match rx (mkRoute m (p +:+ "/...") h me) ctx (strings.Split u)
    = Some (ctx', false)
  ∧ ∀ t,
      route_match rx (mkRoute m (p +:+ "/...") h me) ctx
        (strings.Split (u +:+ String strings.slash t))
      = Some (WithValue ctx' "..." t, true).
Proof.
  intros Hp Hmatch.
  assert (Hw : strings.HasSuffix p "/..." = false).
  { destruct (strings.HasSuffix p "/...") eqn:Hs; [|done].
    destruct (HasSuffix_wildcard_Split _ Hs) as (x & xs & Hx & Hin).
    exfalso. apply Hp. rewrite Hx. by apply list_elem_of_further. }
  apply route_match_exact in Hmatch as [Hlen Hrun]; [|exact Hw].
  simpl in Hlen, Hrun.
  assert (Hsegs : strings.Split (p +:+ "/...") = strings.Split p ++ ["..."])
    by apply (Split_app_slash p "...").
  unfold route_match. simpl. rewrite (HasSuffix_app p "/..."), Hsegs. simpl.
  split.
  - rewrite (match_loop_app _ _ _ _ _ _ Hp), Hrun. simpl.
    rewrite match_segment_wildcard.
    destruct (Nat.ltb_spec (length (strings.Split p)) (length (strings.Split u)));
      [lia|done].
  - intros t. rewrite Split_app_slash.
    rewrite (match_loop_app _ _ _ _ _ _ Hp).
    rewrite match_loop_url_app by (done || simpl; lia).
    rewrite Hrun. simpl. rewrite match_segment_wildcard, length_app.
    pose proof (Split_nonempty t) as Ht.
    destruct (Nat.ltb_spec (length (strings.Split p))
                (length (strings.Split u) + length (strings.Split t)))
      as [_|Hge].
    + rewrite <- Hlen, drop_app_length, Join_Split. reflexivity.
    + destruct (strings.Split t); [done|]. simpl in Hge. lia.
Qed.

End Matcher.

(** ** The dispatcher *)

Section Dispatcher.

Context `{GoLib}.

Implicit Types (rx : gmap string Regexp) (ctx : context) (r : Request).
Implicit Types (rt : route) (rs : list route) (w : ResponseWriter).
Implicit Types (allowed l : list string).

Lemma contains_elem l e : contains l e = true ↔ e ∈ l.
Proof.
  induction l as [|a l IH]; simpl.
  - split; [done|]. by intros ?%elem_of_nil.
  - rewrite elem_of_cons, <- IH.
    destruct (String.eqb_spec a e) as [->|Hne]; [tauto|].
    split; [tauto|]. intros [Heq|He]; [congruence|done].
Qed.

Lemma first_occurrences_elem l x : x ∈ first_occurrences l ↔ x ∈ l.
Proof.
  induction l as [|a l IH]; simpl; [done|].
  rewrite !elem_of_cons, list_elem_of_filter, IH.
  destruct (decide (x = a)); tauto.
Qed.

Lemma first_occurrences_NoDup l : NoDup (first_occurrences l).
Proof.
  induction l as [|a l IH]; simpl; [constructor|].
  apply NoDup_cons. split.
  - rewrite list_elem_of_filter. by intros [Ha _].
  - by apply NoDup_filter.
Qed.

(** What the loop adds to the methods it has collected already. *)
Lemma collected_cons allowed x l :
  (if negb (contains allowed x) then allowed ++ [x] else allowed)
  ++ filter (λ y, y ∉ (if negb (contains allowed x)
                        then allowed ++ [x] else allowed))
       (first_occurrences l)
  = allowed ++ filter (λ y, y ∉ allowed) (first_occurrences (x :: l)).
Proof.
  simpl. destruct (contains allowed x) eqn:Hx; simpl.
  - apply contains_elem in Hx.
    rewrite filter_cons_False by (intros Hnot; by apply Hnot).
    rewrite list_filter_filter_l; [done|]. intros y Hy ->. done.
  - assert (x ∉ allowed) as Hx' by (rewrite <- contains_elem; congruence).
    rewrite filter_cons_True by done.
    rewrite <- app_assoc. simpl. do 2 f_equal.
    rewrite list_filter_filter. apply list_filter_iff. intros y.
    rewrite not_elem_of_app, list_elem_of_singleton. tauto.
Qed.

Lemma match_loop_no_panic rx segs i ctx url :
  (∀ segment k rxPattern,
     segment ∈ segs →
     strings.HasPrefix segment ":" = true →
     strings.Cut (strings.TrimPrefix segment ":") = (k, rxPattern, true) →
     is_Some (rx !! rxPattern)) →
  is_Some (match_loop rx segs i ctx url).
Proof.
  revert i ctx. induction segs as [|segment segs IH]; intros i ctx Hrx; simpl.
  - done.
  - assert (is_Some (match_loop rx segs (S i) ctx url) ∧
            ∀ c, is_Some (match_loop rx segs (S i) c url)) as [_ Hnext].
    { split; intros; apply IH; intros ????; apply Hrx;
        by apply list_elem_of_further. }
    unfold match_segment.
    destruct (Z.gtb_spec (Z.of_nat i) (Z.of_nat (length url) - 1)); [done|].
    destruct (String.eqb segment "..."); [done|].
    destruct (lookup_lt_is_Some_2 url i ltac:(lia)) as [u ->].
    destruct (strings.HasPrefix segment ":") eqn:Hprefix.
    + destruct (strings.Cut _) as [[k rxPattern] [|]] eqn:Hcut.
      * destruct (Hrx segment k rxPattern) as [re ->];
          [apply list_elem_of_here|done..|].
        destruct (MatchString re u); [apply Hnext|done].
      * destruct (negb _); [apply Hnext|done].
    + destruct (negb _); [done|apply Hnext].
Qed.

Lemma route_match_no_panic rx rs rt ctx url :
  compiled rx rs → rt ∈ rs → is_Some (route_match rx rt ctx url).
Proof.
  intros Hrx Hrt. unfold route_match. destruct (_ && _); [done|].
  apply match_loop_no_panic. intros segment k rxPattern ? ? ?.
  by apply (Hrx rt segment k rxPattern).
Qed.

Lemma compiled_cons rx rt rs : compiled rx (rt :: rs) → compiled rx rs.
Proof.
  intros Hrx rt' segment k rxPattern Hin. apply Hrx.
  by apply list_elem_of_further.
Qed.

(** The loop stops at the first route that matches path and method. *)
Lemma ServeHTTP_loop_hit m rx w r segs pre rt post allowed ctx' :
  Forall (λ rt0, ∃ c ok, route_match rx rt0 (Context_ r) segs = Some (c, ok)
                         ∧ (ok = true → method rt0 ≠ Method r)) pre →
  route_match rx rt (Context_ r) segs = Some (ctx', true) →
  method rt = Method r →
  ServeHTTP_loop m rx w r segs (pre ++ rt :: post) allowed
  = Some (handler rt w (WithContext r ctx')).
Proof.
  intros Hpre Hrt Hmethod. revert allowed.
  induction Hpre as [|rt0 pre (c & ok & Hrt0 & Hne) _ IH]; intros allowed;
    simpl.
  - by rewrite Hrt, Hmethod, String.eqb_refl.
  - rewrite Hrt0. destruct ok; [|apply IH].
    destruct (String.eqb_spec (Method r) (method rt0)) as [Heq|_].
    + by destruct Hne.
    + apply IH.
Qed.

(** Without such a route the loop runs to its end and has collected
    the methods of the routes whose path matched. *)
Lemma ServeHTTP_loop_miss m rx w r rs allowed :
  compiled rx rs →
  (∀ rt, rt ∈ hits rx r rs → method rt ≠ Method r) →
  ServeHTTP_loop m rx w r (strings.Split (URL_Path r)) rs allowed
  = Some (ServeHTTP_rest m w r
            (allowed ++ filter (λ y, y ∉ allowed) (allowed_methods rx r rs))).
Proof.
  unfold allowed_methods, hits. revert allowed.
  induction rs as [|rt rs IH]; intros allowed Hrx Hmiss; simpl.
  - by rewrite app_nil_r.
  - destruct (route_match_no_panic rx (rt :: rs) rt (Context_ r)
                (strings.Split (URL_Path r)) Hrx) as [[c ok] Hrt];
      [apply list_elem_of_here|].
    rewrite Hrt.
    assert (path_ok rx (Context_ r) (strings.Split (URL_Path r)) rt = ok)
      as Hok by (unfold path_ok; by rewrite Hrt).
    destruct ok.
    + rewrite filter_cons_True in Hmiss |- * by done.
      destruct (String.eqb_spec (Method r) (method rt)) as [Heq|_].
      { destruct (Hmiss rt); [apply list_elem_of_here|done]. }
      rewrite IH.
      * rewrite fmap_cons. by rewrite collected_cons.
      * by eapply compiled_cons.
      * intros rt' Hrt'. apply Hmiss. by apply list_elem_of_further.
    + rewrite filter_cons_False in Hmiss |- * by congruence.
      apply IH; [by eapply compiled_cons|done].
Qed.

Lemma ServeHTTP_miss m st w r rs :
  tables st !! routes m = Some rs →
  compiled (rxPatterns st) rs →
  (∀ rt, rt ∈ hits (rxPatterns st) r rs → method rt ≠ Method r) →
  ServeHTTP m st w r
  = Some (ServeHTTP_rest m w r (allowed_methods (rxPatterns st) r rs)).
Proof.
  intros Hrs Hrx Hmiss. unfold ServeHTTP. rewrite Hrs.
  rewrite ServeHTTP_loop_miss by done. simpl. f_equal. f_equal.
  induction (allowed_methods (rxPatterns st) r rs) as [|y l IH]; [done|].
  rewrite filter_cons_True by apply not_elem_of_nil. by rewrite IH.
Qed.

Lemma NoDup_occurs_once l x :
  NoDup l → x ∈ l → length (filter (λ y, y = x) l) = 1.
Proof.
  induction 1 as [|a l Ha _ IH]; intros Hx.
  - by apply elem_of_nil in Hx.
  - apply elem_of_cons in Hx as [->|Hx].
    + rewrite filter_cons_True by done. simpl. f_equal.
      apply length_zero_iff_nil. clear IH.
      induction l as [|b l IHl]; [done|].
      apply not_elem_of_cons in Ha as [Hab Ha].
      rewrite filter_cons_False by congruence. by apply IHl.
    + rewrite filter_cons_False; [by apply IH|]. by intros ->.
Qed.

(** C1: the dispatcher goes through the routes in the order of the
    table.  When no route before [rt] matches both the path and the
    method of the request, and [rt] does, the handler of [rt] is invoked
    on the request enriched with the parameters, whatever routes follow
    [rt] in the table; a later route with the same pattern and method is
    among those and is never invoked. *)
Theorem first_matching_route_is_served m st w r pre rt post ctx' :
  tables st !! routes m = Some (pre ++ rt :: post) →
  Forall
    (λ rt0, ∃ c ok,
       route_match (rxPatterns st) rt0 (Context_ r)
         (strings.Split (URL_Path r)) = Some (c, ok)
       ∧ (ok = true → method rt0 ≠ Method r)) pre →
  route_match (rxPatterns st) rt (Context_ r) (strings.Split (URL_Path r))
    = Some (ctx', true) →
  method rt = Method r →
  ServeHTTP m st w r = Some (handler rt w (WithContext r ctx')).
Proof.
  intros Hrs Hpre Hrt Hmethod. unfold ServeHTTP. rewrite Hrs.
  by apply ServeHTTP_loop_hit.
Qed.

(** C4: when the path of the request matches some route of the table
    and none of the matching routes has the method of the request, the
    dispatcher sets the header [Allow] to the methods of the matching
    routes, each once and in the order in which the scan met them,
    followed by [OPTIONS], joined by commas; it then invokes the
    (wrapped) [Options] handler when the method of the request is
    [OPTIONS] and the (wrapped) [MethodNotAllowed] handler otherwise.
    The [Options] handler of [New] writes the status 204 and no body,
    its [MethodNotAllowed] handler writes the status 405 and leaves the
    header [Allow] alone. *)
Theorem method_mismatch_sets_Allow m st w r rs :
  tables st !! routes m = Some rs →
  compiled (rxPatterns st) rs →
  hits (rxPatterns st) r rs ≠ [] →
  (∀ rt, rt ∈ hits (rxPatterns st) r rs → method rt ≠ Method r) →
  NoDup (allowed_methods (rxPatterns st) r rs)
  ∧ (∀ me, me ∈ allowed_methods (rxPatterns st) r rs
           ↔ ∃ rt, rt ∈ hits (rxPatterns st) r rs ∧ method rt = me)
  ∧ ServeHTTP m st w r
    = Some (wrap m
              (if String.eqb (Method r) MethodOptions then Options m
               else MethodNotAllowed m)
              (Header_Set w "Allow"
                 (strings.Join
                    (allowed_methods (rxPatterns st) r rs ++ [MethodOptions])
                    ","))
              r)
  ∧ (∀ (a : loc) w' r',
       Code w' = None →
       Options (New a) w' r'
       = {| Header := Header w'; Code := Some 204; Body := Body w' |})
  ∧ (∀ (a : loc) w' r',
       Code w' = None →
       Code (MethodNotAllowed (New a) w' r') = Some 405
       ∧ Header (MethodNotAllowed (New a) w' r') !! "Allow"
         = Header w' !! "Allow").
Proof.
  intros Hrs Hrx Hhit Hmiss. split; [apply first_occurrences_NoDup|].
  split.
  { intros me. unfold allowed_methods.
    rewrite first_occurrences_elem, list_elem_of_fmap.
    split; intros (rt & ? & ?); eauto. }
  split.
  - rewrite (ServeHTTP_miss _ _ _ _ _ Hrs Hrx Hmiss).
    unfold ServeHTTP_rest, allowed_methods.
    destruct (hits (rxPatterns st) r rs) as [|rt l]; [done|]. simpl.
    by destruct (String.eqb (Method r) MethodOptions).
  - split; intros a w' r' Hcode.
    + simpl. unfold WriteHeader. by rewrite Hcode.
    + simpl. unfold http_Error, Write, WriteHeader. simpl.
      rewrite Hcode. simpl. split; [done|].
      rewrite !lookup_insert_ne by done. by rewrite lookup_delete_ne.
Qed.

(** C10: when the path of the request matches a route registered for
    [OPTIONS] and no matching route has the method of the request, the
    [MethodNotAllowed] handler is invoked with the header [Allow] set to
    a list that names [OPTIONS] twice: once among the collected methods
    and once at its end. *)
Theorem options_route_lists_OPTIONS_twice m st w r rs rt :
  tables st !! routes m = Some rs →
  compiled (rxPatterns st) rs →
  rt ∈ hits (rxPatterns st) r rs →
  method rt = MethodOptions →
  (∀ rt', rt' ∈ hits (rxPatterns st) r rs → method rt' ≠ Method r) →
  ServeHTTP m st w r
  = Some (wrap m (MethodNotAllowed m)
            (Header_Set w "Allow"
               (strings.Join
                  (allowed_methods (rxPatterns st) r rs ++ [MethodOptions])
                  ","))
            r)
  ∧ length (filter (λ me, me = MethodOptions)
              (allowed_methods (rxPatterns st) r rs)) = 1
  ∧ length (filter (λ me, me = MethodOptions)
              (allowed_methods (rxPatterns st) r rs ++ [MethodOptions])) = 2.
Proof.
  intros Hrs Hrx Hrt Hoptions Hmiss.
  assert (Hone : length (filter (λ me, me = MethodOptions)
                   (allowed_methods (rxPatterns st) r rs)) = 1).
  { apply NoDup_occurs_once; [apply first_occurrences_NoDup|].
    unfold allowed_methods. rewrite first_occurrences_elem, list_elem_of_fmap.
    eauto. }
  split; [|split; [done|]].
  - rewrite (ServeHTTP_miss _ _ _ _ _ Hrs Hrx Hmiss).
    unfold ServeHTTP_rest, allowed_methods.
    destruct (hits (rxPatterns st) r rs) as [|rt0 l];
      [by apply elem_of_nil in Hrt|]. simpl.
    destruct (String.eqb_spec (Method r) MethodOptions) as [Heq|_]; [|done].
    destruct (Hmiss rt Hrt). congruence.
  - rewrite filter_app, length_app, Hone. reflexivity.
Qed.

End Dispatcher.

(** ** Registration and middleware *)

Section Registration.

Context `{GoLib}.

Implicit Types (m : Mux) (st : World) (h : Handler) (rs old : list route).
Implicit Types (methods : list string).

(** The loop of [wrap] builds the nest of the middleware, the first of
    the list outermost. *)
Lemma wrap_foldr m h : wrap m h = foldr (λ mw h', mw h') h (middleware m).
Proof.
  unfold wrap. induction (middleware m) as [|mw mws IH]; simpl; [done|].
  by rewrite fold_left_app, IH.
Qed.

Lemma Handle_routes_spec m pattern h methods st old :
  tables st !! routes m = Some old →
  ∃ st',
    Handle_routes m pattern h methods st = Done st'
    ∧ rxPatterns st' = rxPatterns st
    ∧ tables st'
      = <[routes m := old ++ (mkRoute m pattern h <$> methods)]> (tables st).
Proof.
  revert st old. induction methods as [|me methods IH]; intros st old Hold;
    simpl.
  - exists st. rewrite app_nil_r, insert_id by done. done.
  - rewrite Hold.
    edestruct IH as (st' & Hrun & Hrx & Htables);
      [|exists st'; split; [exact Hrun|]].
    + simpl. apply lookup_insert_eq.
    + simpl in *. rewrite Hrx, Htables, insert_insert_eq, <- app_assoc. done.
Qed.

Lemma Handle_compile_tables segs st :
  tables (world_of (Handle_compile segs st)) = tables st.
Proof.
  revert st. induction segs as [|segment segs IH]; intros st; simpl; [done|].
  destruct (strings.HasPrefix segment ":"); [|apply IH].
  destruct (strings.Cut segment) as [[k rxPattern] [|]]; [|apply IH].
  destruct (MustCompile rxPattern); [|done]. by rewrite IH.
Qed.

Lemma Handle_compile_keeps segs st st' src :
  Handle_compile segs st = Done st' →
  is_Some (rxPatterns st !! src) → is_Some (rxPatterns st' !! src).
Proof.
  revert st. induction segs as [|segment segs IH]; intros st; simpl.
  - by intros [= ->].
  - destruct (strings.HasPrefix segment ":"); [|apply IH].
    destruct (strings.Cut segment) as [[k rxPattern] [|]]; [|apply IH].
    destruct (MustCompile rxPattern) as [re|]; [|done].
    intros Hrun Hsrc. apply (IH _ Hrun). simpl.
    destruct (decide (rxPattern = src)) as [->|Hne].
    + rewrite lookup_insert_eq. eauto.
    + by rewrite lookup_insert_ne.
Qed.

Lemma Handle_compile_compiles segs st st' segment k src :
  Handle_compile segs st = Done st' →
  segment ∈ segs →
  strings.HasPrefix segment ":" = true →
  strings.Cut segment = (k, src, true) →
  is_Some (rxPatterns st' !! src).
Proof.
  revert st. induction segs as [|segment0 segs IH]; intros st Hrun Hin Hp Hcut.
  - by apply elem_of_nil in Hin.
  - apply elem_of_cons in Hin as [<-|Hin].
    + simpl in Hrun. rewrite Hp, Hcut in Hrun.
      destruct (MustCompile src) as [re|]; [|done].
      apply (Handle_compile_keeps _ _ _ _ Hrun). simpl.
      rewrite lookup_insert_eq. eauto.
    + simpl in Hrun.
      destruct (strings.HasPrefix segment0 ":"); [|by eapply IH].
      destruct (strings.Cut segment0) as [[k0 src0] [|]]; [|by eapply IH].
      destruct (MustCompile src0) as [re|]; [|done]. by eapply IH.
Qed.

(** [Handle] and [match] cut the same regular expression out of a
    parameter segment. *)
Lemma Cut_TrimPrefix_colon segment k src :
  strings.HasPrefix segment ":" = true →
  strings.Cut (strings.TrimPrefix segment ":") = (k, src, true) →
  strings.Cut segment = (String ":" k, src, true).
Proof.
  destruct segment as [|c s]; [done|].
  unfold strings.HasPrefix, strings.TrimPrefix. simpl.
  destruct (Ascii.eqb_spec c ":") as [->|]; [|done]. simpl.
  by intros _ ->.
Qed.

(** A [Handle] that returns leaves every route of every table with its
    regular expressions compiled. *)
Lemma Handle_World_ok m pattern h methods st st' :
  World_ok st → Handle m pattern h methods st = Done st' → World_ok st'.
Proof.
  intros Hok. unfold Handle.
  destruct (Handle_routes m pattern h (Handle_methods methods) st)
    as [st1|st1] eqn:Hroutes; [|done].
  intros Hcompile a rs Hrs rt segment k src Hrt Hseg Hp Hcut.
  pose proof (Handle_compile_tables (strings.Split pattern) st1) as Htables.
  rewrite Hcompile in Htables. simpl in Htables. rewrite Htables in Hrs.
  assert (Hnew : segment ∈ strings.Split pattern →
                 is_Some (rxPatterns st' !! src)).
  { intros Hin. eapply Handle_compile_compiles; [done..|].
    by apply Cut_TrimPrefix_colon. }
  destruct (tables st !! routes m) as [old|] eqn:Hold.
  - destruct (Handle_routes_spec m pattern h (Handle_methods methods) st old Hold)
      as (st1' & Hrun & Hrx & Ht).
    rewrite Hroutes in Hrun. injection Hrun as <-.
    rewrite Ht in Hrs. destruct (decide (a = routes m)) as [->|Hne].
    + rewrite lookup_insert_eq in Hrs. injection Hrs as <-.
      apply elem_of_app in Hrt as [Hrt|Hrt].
      * apply (Handle_compile_keeps _ _ _ _ Hcompile). rewrite Hrx.
        by apply (Hok _ _ Hold rt segment k src).
      * apply list_elem_of_fmap in Hrt as (me & -> & _). by apply Hnew.
    + rewrite lookup_insert_ne in Hrs by done.
      apply (Handle_compile_keeps _ _ _ _ Hcompile). rewrite Hrx.
      by apply (Hok _ _ Hrs rt segment k src).
  - unfold Handle_methods in Hroutes.
    destruct (if length methods =? 0 then allMethods else methods)
      as [|me l] eqn:Hms.
    { by destruct methods. }
    assert (∃ me' l', (if contains (me :: l) MethodGet
                          && negb (contains (me :: l) MethodHead)
                       then (me :: l) ++ [MethodGet] else me :: l) = me' :: l')
      as (me' & l' & Heq) by (destruct (_ && _); simpl; eauto).
    rewrite Heq in Hroutes. simpl in Hroutes. by rewrite Hold in Hroutes.
Qed.

Lemma New_World_ok (a : loc) : World_ok (New_world a {| rxPatterns := ∅; tables := ∅ |}).
Proof.
  intros a' rs Hrs rt segment k src Hrt. simpl in Hrs.
  destruct (decide (a = a')) as [->|Hne].
  - rewrite lookup_insert_eq in Hrs. injection Hrs as <-.
    by apply elem_of_nil in Hrt.
  - by rewrite lookup_insert_ne in Hrs.
Qed.

Lemma contains_lookup methods e :
  contains methods e = true → ∃ i, methods !! i = Some e.
Proof.
  induction methods as [|a methods IH]; simpl; [done|].
  destruct (String.eqb_spec a e) as [->|_].
  - by exists 0.
  - intros [i Hi]%IH. by exists (S i).
Qed.

Lemma Handle_tables m pattern h methods st old :
  tables st !! routes m = Some old →
  tables (world_of (Handle m pattern h methods st)) !! routes m
  = Some (old ++ (mkRoute m pattern h <$> Handle_methods methods)).
Proof.
  intros Hold. unfold Handle.
  destruct (Handle_routes_spec m pattern h (Handle_methods methods) st old Hold)
    as (st' & -> & _ & Ht).
  rewrite Handle_compile_tables, Ht. apply lookup_insert_eq.
Qed.

(** C5: a call of [Handle] whose methods contain [GET] and not [HEAD]
    registers one route per given method and then one more route for
    [GET], equal to the route of the given [GET]: the table holds two
    identical [GET] routes for the pattern.  Nothing but that [GET]
    route is added: a [HEAD] route is registered only if one of the
    given methods is [HEAD] up to case. *)
Theorem Handle_GET_without_HEAD_registers_GET_twice
    m pattern h methods st old :
  tables st !! routes m = Some old →
  contains methods MethodGet = true →
  contains methods MethodHead = false →
  Handle_methods methods = methods ++ [MethodGet]
  ∧ tables (world_of (Handle m pattern h methods st)) !! routes m
    = Some (old ++ (mkRoute m pattern h <$> methods)
                ++ [mkRoute m pattern h MethodGet])
  ∧ method (mkRoute m pattern h MethodGet) = "GET"
  ∧ (∃ i, i < length methods
          ∧ ((mkRoute m pattern h <$> methods)
               ++ [mkRoute m pattern h MethodGet]) !! i
            = Some (mkRoute m pattern h MethodGet)
          ∧ ((mkRoute m pattern h <$> methods)
               ++ [mkRoute m pattern h MethodGet]) !! length methods
            = Some (mkRoute m pattern h MethodGet))
  ∧ (Forall (λ me, ToUpper me ≠ "HEAD") methods →
     Forall (λ rt, method rt ≠ "HEAD")
       ((mkRoute m pattern h <$> methods) ++ [mkRoute m pattern h MethodGet])).
Proof.
  intros Hold Hget Hhead.
  assert (Hms : Handle_methods methods = methods ++ [MethodGet]).
  { unfold Handle_methods. destruct methods as [|me l]; [done|].
    cbn [length Nat.eqb]. by rewrite Hget, Hhead. }
  split; [exact Hms|]. split.
  { rewrite (Handle_tables _ _ _ _ _ _ Hold), Hms, fmap_app. done. }
  split; [reflexivity|]. split.
  - destruct (contains_lookup _ _ Hget) as [i Hi]. exists i.
    pose proof (lookup_lt_Some _ _ _ Hi) as Hlt. split; [done|]. split.
    + rewrite lookup_app_l by (by rewrite length_fmap).
      by rewrite list_lookup_fmap, Hi.
    + rewrite lookup_app_r by (by rewrite length_fmap).
      by rewrite length_fmap, Nat.sub_diag.
  - intros Hno. apply Forall_app. split.
    + apply Forall_fmap. eapply Forall_impl; [exact Hno|]. done.
    + by repeat constructor.
Qed.

(** C6: with the middleware [A] and [B] registered in this order, the
    handler composed by [wrap] around [H] is [A (B H)], whether they
    were given to [Use] together or one after the other.  For
    middleware that acts before and after its inner handler this is
    the order: in of [A], in of [B], [H], out of [B], out of [A]. *)
Theorem wrap_first_registered_is_outermost (A B : Handler → Handler) H0 :
  (∀ m, middleware m = [A; B] → wrap m H0 = A (B H0))
  ∧ (∀ m, middleware m = [] →
          middleware (Use m [A; B]) = [A; B]
          ∧ middleware (Use (Use m [A]) [B]) = [A; B])
  ∧ (∀ m inA outA inB outB w r,
       A = around inA outA → B = around inB outB →
       middleware m = [A; B] →
       wrap m H0 w r = outA (outB (H0 (inB (inA w)) r))).
Proof.
  split; [|split].
  - intros m Hm. by rewrite wrap_foldr, Hm.
  - intros m Hm. simpl. by rewrite Hm.
  - intros m inA outA inB outB w r -> -> Hm. by rewrite wrap_foldr, Hm.
Qed.

(** C7: the routes that [Handle] appends to the table carry the
    handler composed from the middleware list the router has at that
    moment.  [Use] gives a router with a longer list and the same
    table; the routes stored in it keep the handler they were
    registered with. *)
Theorem stored_handler_is_fixed_at_registration
    m pattern h methods st old mws :
  tables st !! routes m = Some old →
  ∃ new,
    tables (world_of (Handle m pattern h methods st)) !! routes m
    = Some (old ++ new)
    ∧ new ≠ []
    ∧ Forall (λ rt, handler rt = foldr (λ mw h', mw h') h (middleware m)) new
    ∧ middleware (Use m mws) = middleware m ++ mws
    ∧ tables (world_of (Handle m pattern h methods st)) !! routes (Use m mws)
      = Some (old ++ new).
Proof.
  intros Hold. exists (mkRoute m pattern h <$> Handle_methods methods).
  pose proof (Handle_tables m pattern h methods st old Hold) as Ht.
  split; [exact Ht|]. split; [|split; [|split; [reflexivity|exact Ht]]].
  - unfold Handle_methods.
    destruct (if length methods =? 0 then allMethods else methods)
      as [|me l] eqn:Hms; [by destruct methods|].
    by destruct (_ && _).
  - apply Forall_fmap, Forall_forall. intros me _. simpl. apply wrap_foldr.
Qed.

End Registration.

(** ** The model of [regexp] *)

Section Search.

Import GoRegexp.

(** The matcher is monotone in its continuation. *)
Lemma run_mono r :
  ∀ (k k' : bool → string → bool) bot s,
    (∀ b s', k b s' = true → k' b s' = true) →
    run r k bot s = true → run r k' bot s = true.
Proof.
  induction r as [| c | | negated ranges | r1 IH1 r2 IH2 | r1 IH1 r2 IH2
                 | r1 IH1 | | ]; intros k k' bot s Hk; simpl.
  - apply Hk.
  - destruct s as [|a s]; [done|]. destruct (Ascii.eqb a c); [apply Hk|done].
  - destruct s as [|a s]; [done|].
    destruct (Ascii.eqb a newline); [done|apply Hk].
  - destruct s as [|a s]; [done|].
    destruct (inClass negated ranges a); [apply Hk|done].
  - apply IH1. intros b s'. by apply IH2.
  - rewrite !orb_true_iff. intros [?|?]; [left; by eapply IH1|right; by eapply IH2].
  - generalize (String.length s) as fuel. intros fuel. revert bot s.
    induction fuel as [|fuel IHfuel]; intros bot s;
      rewrite !orb_true_iff; (intros [?|Hrun]; [left; by apply Hk|]).
    + done.
    + right. revert Hrun. apply IH1. intros b s'.
      destruct (String.length s' <? String.length s); [apply IHfuel|done].
  - destruct bot; [apply Hk|done].
  - destruct s; [apply Hk|done].
Qed.

(** A regular expression that matches the whole of a text is found in
    it by the search; the converse fails, see [digitsRe] on [a42b]. *)
Lemma FullMatch_MatchString r s :
  FullMatch r s = true → GoRegexp.MatchString r s = true.
Proof.
  unfold FullMatch, GoRegexp.MatchString. intros Hfull.
  destruct s; simpl; apply orb_true_iff; left;
    by apply (run_mono r _ _ _ _ (λ _ _ _, eq_refl) Hfull).
Qed.

End Search.

(** ** The properties on the data of the examples *)

Lemma usersWorld_table : tables usersWorld !! 0 = Some [usersRoute].
Proof. reflexivity. Qed.

Lemma usersWorld_rx : rxPatterns usersWorld !! "[0-9]+" = Some digitsRe.
Proof. vm_compute. reflexivity. Qed.

(** The examples of the specification for [/users/:id|[0-9]+]. *)
Example users_abc_no_match :
  route_match (rxPatterns usersWorld) usersRoute [] (strings.Split "/users/abc")
  = Some ([], false).
Proof. vm_compute. reflexivity. Qed.

Example users_42_match :
  route_match (rxPatterns usersWorld) usersRoute [] (strings.Split "/users/42")
  = Some ([("id", "42")], true).
Proof. vm_compute. reflexivity. Qed.

(** C2 fails as stated: the route [/users/:id|[0-9]+] matches the
    request path [/users/a42b] and binds [id] to [a42b], although the
    regular expression does not match the whole segment [a42b]. *)
Lemma regex_param_accepts_partial_match :
  rxPatterns usersWorld !! "[0-9]+" = Some digitsRe
  ∧ GoRegexp.FullMatch digitsRe "a42b" = false
  ∧ match_segment (rxPatterns usersWorld) 2 ":id|[0-9]+" []
      (strings.Split "/users/a42b") = Continue [("id", "a42b")]
  ∧ route_match (rxPatterns usersWorld) usersRoute []
      (strings.Split "/users/a42b") = Some ([("id", "a42b")], true).
Proof. repeat split; vm_compute; reflexivity. Qed.

Lemma regex_param_matches_by_search_witness :
  strings.ContainsRune "id" strings.bar = false
  ∧ strings.Split "/users/a42b" !! 2 = Some "a42b"
  ∧ rxPatterns usersWorld !! "[0-9]+" = Some digitsRe
  ∧ match_segment (rxPatterns usersWorld) 2 ":id|[0-9]+" []
      (strings.Split "/users/a42b")
    = if MatchString digitsRe "a42b" then Continue (WithValue [] "id" "a42b")
      else Return [] false.
Proof.
  assert (Hname : strings.ContainsRune "id" strings.bar = false)
    by reflexivity.
  assert (Hu : strings.Split "/users/a42b" !! 2 = Some "a42b") by reflexivity.
  assert (Hre : rxPatterns usersWorld !! "[0-9]+" = Some digitsRe)
    by (vm_compute; reflexivity).
  refine (conj Hname (conj Hu (conj Hre _))).
  exact (regex_param_matches_by_search (rxPatterns usersWorld) "id" "[0-9]+"
           digitsRe 2 [] (strings.Split "/users/a42b") "a42b" Hname Hu Hre).
Defined.

Lemma unconstrained_param_needs_nonempty_segment_witness :
  strings.ContainsRune "id" strings.bar = false
  ∧ strings.Split "/users/" !! 2 = Some ""
  ∧ match_segment ∅ 2 ":id" [] (strings.Split "/users/") = Return [] false
  ∧ strings.Split "/users/42" !! 2 = Some "42"
  ∧ "42" ≠ ""
  ∧ (∃ ctx',
       match_segment ∅ 2 ":id" [("lang", "en")] (strings.Split "/users/42")
       = Continue ctx'
       ∧ ctx' = [("id", "42"); ("lang", "en")]
       ∧ Value ctx' "id" = Some "42"
       ∧ Param ctx' "id" = "42")
  ∧ (∃ ctx',
       route_match ∅ (mkRoute mux0 "/users/:id" (echo "id") "POST")
         [("lang", "en")] (strings.Split "/users/42") = Some (ctx', true)
       ∧ ctx' = [("id", "42"); ("lang", "en")]
       ∧ Value ctx' "id" = Some "42"
       ∧ Param ctx' "id" = "42")
  ∧ (Body <$> ServeHTTP mux0 echoWorld recorder (request "POST" "/users/42"))
    = Some "42"
  ∧ (Code <$> ServeHTTP mux0 echoWorld recorder (request "POST" "/users/"))
    = Some (Some 404).
Proof.
  assert (Hname : strings.ContainsRune "id" strings.bar = false)
    by reflexivity.
  assert (Hu : strings.Split "/users/" !! 2 = Some "") by reflexivity.
  assert (Hu' : strings.Split "/users/42" !! 2 = Some "42") by reflexivity.
  assert (Hne : "42" ≠ "") by discriminate.
  destruct unconstrained_param_needs_nonempty_segment
    as (Hstep & _ & _ & Hbind & Hroute).
  refine (conj Hname (conj Hu (conj _ (conj Hu' (conj Hne
            (conj _ (conj _ (conj eq_refl eq_refl)))))))).
  - exact (Hstep ∅ "id" 2 [] (strings.Split "/users/") "" Hname Hu).
  - exact (Hbind ∅ "id" 2 [("lang", "en")] (strings.Split "/users/42") "42"
             Hname Hu' Hne).
  - exact (Hroute ∅ mux0 (echo "id") "POST" [("lang", "en")]).
Defined.

(** C3 fails as stated: the wildcard route [/files/...] does not match
    the request path [/files]. *)
Lemma wildcard_rejects_path_without_trailing_segment :
  wildcard filesRoute = true
  ∧ route_match ∅ filesRoute [] (strings.Split "/files") = Some ([], false).
Proof. split; reflexivity. Qed.

Lemma not_in_segments (l : list string) :
  forallb (λ s, negb (String.eqb s "...")) l = true → "..." ∉ l.
Proof.
  induction l as [|a l IH]; simpl; intros Hl.
  - apply not_elem_of_nil.
  - apply andb_true_iff in Hl as [Ha Hl]. apply not_elem_of_cons. split.
    + intros <-. by rewrite String.eqb_refl in Ha.
    + by apply IH.
Defined.

Lemma wildcard_needs_a_trailing_segment_witness :
  ("..." ∉ strings.Split "/files")
  ∧ route_match ∅ (mkRoute mux0 "/files" (say "files") "GET") []
      (strings.Split "/files") = Some ([], true)
  ∧ route_match ∅ filesRoute [] (strings.Split "/files") = Some ([], false)
  ∧ route_match ∅ filesRoute [] (strings.Split "/files/")
    = Some ([("...", "")], true)
  ∧ route_match ∅ filesRoute [] (strings.Split "/files/a/b/c")
    = Some ([("...", "a/b/c")], true).
Proof.
  assert (Hp : "..." ∉ strings.Split "/files")
    by (apply not_in_segments; reflexivity).
  assert (Hm : route_match ∅ (mkRoute mux0 "/files" (say "files") "GET") []
                 (strings.Split "/files") = Some ([], true)) by reflexivity.
  destruct (wildcard_needs_a_trailing_segment ∅ mux0 "/files" (say "files")
              "GET" [] [] "/files" Hp Hm) as [Hbare Htail].
  exact (conj Hp (conj Hm (conj Hbare (conj (Htail "") (Htail "a/b/c"))))).
Defined.

(** C9 fails as stated: on the request path [/static/css] the matcher
    of the route [/static/:dir/...] reaches the marker after the
    segments before it have matched, and fails there. *)
Lemma wildcard_marker_reached_without_segment :
  segments staticRoute = [""; "static"; ":dir"] ++ ["..."]
  ∧ match_loop ∅ [""; "static"; ":dir"] 0 [] (strings.Split "/static/css")
    = Some ([("dir", "css")], true)
  ∧ match_segment ∅ 3 "..." [("dir", "css")] (strings.Split "/static/css")
    = Return [("dir", "css")] false
  ∧ route_match ∅ staticRoute [] (strings.Split "/static/css")
    = Some ([("dir", "css")], false).
Proof. repeat split; reflexivity. Qed.

Lemma wildcard_marker_ends_the_match_witness :
  ("..." ∉ [""; "a"])
  ∧ match_loop ∅ [""; "a"] 0 [] (strings.Split "/a/b/c") = Some ([], true)
  ∧ match_loop ∅ ([""; "a"] ++ "..." :: ["never"; "read"]) 0 []
      (strings.Split "/a/b/c") = Some ([("...", "b/c")], true)
  ∧ route_match ∅ (mkRoute mux0 "/a/.../d" (say "mid") "GET") []
      (strings.Split "/a/b/c") = Some ([("...", "b/c")], true).
Proof.
  assert (Hpre : "..." ∉ [""; "a"]) by (apply not_in_segments; reflexivity).
  assert (Hrun : match_loop ∅ [""; "a"] 0 [] (strings.Split "/a/b/c")
                 = Some ([], true)) by reflexivity.
  destruct (wildcard_marker_ends_the_match ∅ [] (strings.Split "/a/b/c"))
    as (Hreach & _ & Hexact).
  refine (conj Hpre (conj Hrun (conj _ _))).
  - exact (Hreach [""; "a"] ["never"; "read"] 0 [] Hpre Hrun).
  - exact (Hexact (mkRoute mux0 "/a/.../d" (say "mid") "GET") [""; "a"] ["d"]
             [] eq_refl eq_refl Hpre eq_refl Hrun).
Defined.

Lemma first_matching_route_is_served_witness :
  tables dupWorld !! routes mux0
  = Some ([mkRoute mux0 "/other" (say "other") "POST"]
            ++ mkRoute mux0 "/dup" (say "first") "POST"
            :: [mkRoute mux0 "/dup" (say "second") "POST"])
  ∧ ServeHTTP mux0 dupWorld recorder (request "POST" "/dup")
    = Some (say "first" recorder (request "POST" "/dup"))
  ∧ (Body <$> ServeHTTP mux0 dupWorld recorder (request "POST" "/dup"))
    = Some "first".
Proof.
  assert (Hrs : tables dupWorld !! routes mux0
                = Some ([mkRoute mux0 "/other" (say "other") "POST"]
                          ++ mkRoute mux0 "/dup" (say "first") "POST"
                          :: [mkRoute mux0 "/dup" (say "second") "POST"]))
    by reflexivity.
  assert (Hpre : Forall
            (λ rt0, ∃ c ok,
               route_match (rxPatterns dupWorld) rt0
                 (Context_ (request "POST" "/dup"))
                 (strings.Split (URL_Path (request "POST" "/dup")))
               = Some (c, ok)
               ∧ (ok = true → method rt0 ≠ Method (request "POST" "/dup")))
            [mkRoute mux0 "/other" (say "other") "POST"]).
  { repeat constructor. exists [], false. split; [reflexivity|discriminate]. }
  pose proof (first_matching_route_is_served mux0 dupWorld recorder
                (request "POST" "/dup") _ _ _ [] Hrs Hpre eq_refl eq_refl)
    as Hserved.
  refine (conj Hrs (conj Hserved _)). rewrite Hserved. reflexivity.
Defined.

Lemma widgetsWorld_ok : World_ok widgetsWorld.
Proof.
  apply (Handle_World_ok mux0 "/widgets" (say "widgets") ["GET"; "POST"] world0);
    [apply New_World_ok|reflexivity].
Defined.

Lemma optionsWorld_ok : World_ok optionsWorld.
Proof.
  apply (Handle_World_ok mux0 "/opt" (say "opt") ["OPTIONS"] world0);
    [apply New_World_ok|reflexivity].
Defined.

Lemma method_mismatch_sets_Allow_witness :
  hits (rxPatterns widgetsWorld) (request "OPTIONS" "/widgets")
    [mkRoute mux0 "/widgets" (say "widgets") "GET";
     mkRoute mux0 "/widgets" (say "widgets") "POST";
     mkRoute mux0 "/widgets" (say "widgets") "GET"] ≠ []
  ∧ allowed_methods (rxPatterns widgetsWorld) (request "OPTIONS" "/widgets")
      [mkRoute mux0 "/widgets" (say "widgets") "GET";
       mkRoute mux0 "/widgets" (say "widgets") "POST";
       mkRoute mux0 "/widgets" (say "widgets") "GET"] = ["GET"; "POST"]
  ∧ ServeHTTP mux0 widgetsWorld recorder (request "OPTIONS" "/widgets")
    = Some {| Header := {["Allow" := ["GET,POST,OPTIONS"]]};
              Code := Some 204; Body := "" |}.
Proof.
  pose (rs := [mkRoute mux0 "/widgets" (say "widgets") "GET";
               mkRoute mux0 "/widgets" (say "widgets") "POST";
               mkRoute mux0 "/widgets" (say "widgets") "GET"]).
  pose (r := request "OPTIONS" "/widgets").
  assert (Hrs : tables widgetsWorld !! routes mux0 = Some rs) by reflexivity.
  assert (Hhits : hits (rxPatterns widgetsWorld) r rs = rs) by reflexivity.
  assert (Hne : hits (rxPatterns widgetsWorld) r rs ≠ [])
    by (rewrite Hhits; discriminate).
  assert (Hmiss : ∀ rt, rt ∈ hits (rxPatterns widgetsWorld) r rs →
                        method rt ≠ Method r).
  { intros rt. rewrite Hhits. unfold rs.
    rewrite !elem_of_cons, elem_of_nil. intros [->|[->|[->|[]]]]; discriminate. }
  destruct (method_mismatch_sets_Allow mux0 widgetsWorld recorder r rs Hrs
              (widgetsWorld_ok _ _ Hrs) Hne Hmiss) as (_ & _ & Hserve & _).
  refine (conj Hne (conj eq_refl _)). fold rs r. rewrite Hserve. reflexivity.
Defined.

Lemma options_route_lists_OPTIONS_twice_witness :
  mkRoute mux0 "/opt" (say "opt") "OPTIONS"
    ∈ hits (rxPatterns optionsWorld) (request "GET" "/opt")
        [mkRoute mux0 "/opt" (say "opt") "OPTIONS"]
  ∧ ServeHTTP mux0 optionsWorld recorder (request "GET" "/opt")
    = Some (MethodNotAllowed mux0
              (Header_Set recorder "Allow" "OPTIONS,OPTIONS")
              (request "GET" "/opt"))
  ∧ (r ← ServeHTTP mux0 optionsWorld recorder (request "GET" "/opt");
     Some (Code r, Header r !! "Allow"))
    = Some (Some 405, Some ["OPTIONS,OPTIONS"]).
Proof.
  pose (rt := mkRoute mux0 "/opt" (say "opt") "OPTIONS").
  pose (r := request "GET" "/opt").
  assert (Hrs : tables optionsWorld !! routes mux0 = Some [rt]) by reflexivity.
  assert (Hhits : hits (rxPatterns optionsWorld) r [rt] = [rt]) by reflexivity.
  assert (Hrt : rt ∈ hits (rxPatterns optionsWorld) r [rt])
    by (rewrite Hhits; apply list_elem_of_here).
  assert (Hmiss : ∀ rt', rt' ∈ hits (rxPatterns optionsWorld) r [rt] →
                         method rt' ≠ Method r).
  { intros rt'. rewrite Hhits. intros ->%list_elem_of_singleton. discriminate. }
  destruct (options_route_lists_OPTIONS_twice mux0 optionsWorld recorder r
              [rt] rt Hrs (optionsWorld_ok _ _ Hrs) Hrt eq_refl Hmiss)
    as (Hserve & _).
  refine (conj Hrt (conj _ _)); fold rt r; rewrite Hserve; reflexivity.
Defined.

Lemma Handle_GET_without_HEAD_registers_GET_twice_witness :
  tables world0 !! routes mux0 = Some []
  ∧ contains ["GET"] MethodGet = true
  ∧ contains ["GET"] MethodHead = false
  ∧ tables (registered "/p" (say "p") ["GET"] world0) !! routes mux0
    = Some [mkRoute mux0 "/p" (say "p") "GET"; mkRoute mux0 "/p" (say "p") "GET"]
  ∧ (Code <$> ServeHTTP mux0 (registered "/p" (say "p") ["GET"] world0)
                recorder (request "HEAD" "/p")) = Some (Some 405).
Proof.
  assert (Hold : tables world0 !! routes mux0 = Some []) by reflexivity.
  destruct (Handle_GET_without_HEAD_registers_GET_twice mux0 "/p" (say "p")
              ["GET"] world0 [] Hold eq_refl eq_refl) as (_ & Htable & _).
  exact (conj Hold (conj eq_refl (conj eq_refl (conj Htable eq_refl)))).
Defined.

Lemma wrap_first_registered_is_outermost_witness :
  middleware (Use (Use mux0 [tag "A"]) [tag "B"]) = [tag "A"; tag "B"]
  ∧ wrap (Use (Use mux0 [tag "A"]) [tag "B"]) (say "H")
    = tag "A" (tag "B" (say "H"))
  ∧ Body (wrap (Use (Use mux0 [tag "A"]) [tag "B"]) (say "H") recorder
            (request "GET" "/"))
    = "A>B>H<B<A".
Proof.
  assert (Hm : middleware (Use (Use mux0 [tag "A"]) [tag "B"])
               = [tag "A"; tag "B"]) by reflexivity.
  pose proof (proj1 (wrap_first_registered_is_outermost (tag "A") (tag "B")
                       (say "H")) _ Hm) as Hwrap.
  refine (conj Hm (conj Hwrap _)). rewrite Hwrap. reflexivity.
Defined.

Lemma stored_handler_is_fixed_at_registration_witness :
  tables world0 !! routes mux0 = Some []
  ∧ (∃ new,
       tables helloWorld !! routes (Use mux0 [tag "A"]) = Some new
       ∧ new ≠ []
       ∧ Forall (λ rt, handler rt = say "hello") new)
  ∧ (Body <$> ServeHTTP (Use mux0 [tag "A"]) helloWorld recorder
                (request "POST" "/hello")) = Some "hello"
  ∧ (Body <$> ServeHTTP (Use mux0 [tag "A"])
                (world_of (Handle (Use mux0 [tag "A"]) "/late" (say "late")
                             ["POST"] helloWorld))
                recorder (request "POST" "/late")) = Some "A>late<A".
Proof.
  assert (Hold : tables world0 !! routes mux0 = Some []) by reflexivity.
  destruct (stored_handler_is_fixed_at_registration mux0 "/hello" (say "hello")
              ["POST"] world0 [] [tag "A"] Hold)
    as (new & _ & Hne & Hall & _ & Htable).
  refine (conj Hold (conj _ (conj eq_refl eq_refl))).
  exists new. exact (conj Htable (conj Hne Hall)).
Defined.

(** * Further properties of the code *)

(** ** The matcher and [Param] *)

Section MatcherMore.

Context `{GoLib}.

Implicit Types (rx : gmap string Regexp) (ctx : context).
Implicit Types (url pre post segs : list string).

Lemma Split_inj u p : strings.Split u = strings.Split p → u = p.
Proof. intros Heq. by rewrite <- (Join_Split u), Heq, Join_Split. Qed.

(** What an iteration leaves in the context. *)
Lemma match_segment_binds rx i segment ctx url :
  match match_segment rx i segment ctx url with
  | Continue ctx1 | Return ctx1 _ =>
      ctx1 = ctx
      ∨ ∃ key v, segment_key segment = Some key ∧ ctx1 = WithValue ctx key v
  | Panic => True
  end.
Proof.
  unfold match_segment, segment_key.
  destruct (_ >? _)%Z; [by left|].
  destruct (String.eqb segment "..."); [right; eauto|].
  destruct (url !! i) as [u|]; [|done].
  destruct (strings.HasPrefix segment ":").
  - destruct (strings.Cut _) as [[k rxPattern] [|]]; simpl.
    + destruct (rx !! rxPattern) as [re|]; [|done].
      destruct (MatchString re u); [right; eauto|by left].
    + destruct (negb _); [right; eauto|by left].
  - destruct (negb _); by left.
Qed.

(** An iteration on a parameter that lets the loop go on has bound the
    name to the request segment at its index. *)
Lemma match_segment_param_continue rx i segment ctx ctx1 url key :
  segment ≠ "..." →
  segment_key segment = Some key →
  match_segment rx i segment ctx url = Continue ctx1 →
  ∃ u, url !! i = Some u ∧ ctx1 = WithValue ctx key u.
Proof.
  intros Hseg%String.eqb_neq. unfold match_segment, segment_key. rewrite Hseg.
  destruct (_ >? _)%Z; [done|].
  destruct (url !! i) as [u|]; [|done].
  destruct (strings.HasPrefix segment ":"); [|done].
  destruct (strings.Cut _) as [[k rxPattern] [|]]; simpl; intros [= <-].
  - destruct (rx !! rxPattern) as [re|]; [|done].
    destruct (MatchString re u); [|done]. intros [= <-]. eauto.
  - destruct (negb _); [|done]. intros [= <-]. eauto.
Qed.

Lemma Value_WithValue_ne ctx key v k :
  key ≠ k → Value (WithValue ctx key v) k = Value ctx k.
Proof. intros Hne%String.eqb_neq. simpl. by rewrite Hne. Qed.

Lemma match_loop_keeps_Value rx segs i ctx ctx' ok url k :
  (∀ segment, segment ∈ segs → segment_key segment ≠ Some k) →
  match_loop rx segs i ctx url = Some (ctx', ok) →
  Value ctx' k = Value ctx k.
Proof.
  revert i ctx. induction segs as [|segment segs IH]; intros i ctx Hk; simpl.
  - by intros [= <- _].
  - pose proof (match_segment_binds rx i segment ctx url) as Hb.
    assert (Hseg : segment_key segment ≠ Some k)
      by apply Hk, list_elem_of_here.
    assert (Hstep : ∀ ctx1,
              ctx1 = ctx
              ∨ (∃ key v, segment_key segment = Some key
                          ∧ ctx1 = WithValue ctx key v) →
              Value ctx1 k = Value ctx k).
    { intros ctx1 [->|(key & v & Hkey & ->)]; [done|].
      apply Value_WithValue_ne. intros ->. by apply Hseg. }
    destruct (match_segment rx i segment ctx url) as [ctx1|ctx1 ok1|];
      [|intros [= <- _]; by apply Hstep|done].
    intros Hrun. rewrite (IH _ _ (λ s Hs, Hk s (list_elem_of_further _ _ _ Hs)) Hrun).
    by apply Hstep.
Qed.

Lemma route_match_loop rx rt ctx ctx' url :
  route_match rx rt ctx url = Some (ctx', true) →
  match_loop rx (segments rt) 0 ctx url = Some (ctx', true).
Proof. unfold route_match. by destruct (_ && _). Qed.

Lemma match_loop_literal rx segs i ctx url :
  forallb literal segs = true →
  length url = i + length segs →
  match_loop rx segs i ctx url = Some (ctx, bool_decide (drop i url = segs)).
Proof.
  revert i. induction segs as [|segment segs IH]; intros i Hlit Hlen; simpl.
  - simpl in Hlen. rewrite drop_ge by lia. by rewrite bool_decide_eq_true_2.
  - simpl in Hlit, Hlen. apply andb_true_iff in Hlit as [Hseg Hlit].
    unfold literal in Hseg.
    apply andb_true_iff in Hseg as [Hw%negb_true_iff Hp%negb_true_iff].
    destruct (lookup_lt_is_Some_2 url i ltac:(lia)) as [u Hu].
    unfold match_segment.
    rewrite (index_in_range _ _ _ Hu), Hw, Hu, Hp.
    rewrite (drop_S _ _ _ Hu).
    destruct (String.eqb_spec u segment) as [->|Hne]; simpl.
    + rewrite IH by (done || lia).
      f_equal. f_equal. apply bool_decide_ext. split; [by intros ->|].
      by intros [= ->].
    + f_equal. f_equal. symmetry. apply bool_decide_eq_false_2.
      by intros [= ->].
Qed.

Lemma literal_not_wildcard segs :
  forallb literal segs = true → "..." ∉ segs.
Proof.
  induction segs as [|segment segs IH]; simpl; intros Hl.
  - apply not_elem_of_nil.
  - apply andb_true_iff in Hl as [Hseg Hl]. apply not_elem_of_cons.
    split; [|by apply IH]. intros <-. done.
Qed.

(** X1: a pattern whose segments are all literal (none starts with a
    colon, none is the marker [...]) matches the request paths equal to
    the pattern and no other, and binds nothing: the comparison is by
    bytes, and a trailing slash counts. *)
Theorem literal_pattern_matches_only_itself rx m p h me ctx u :
  forallb literal (strings.Split p) = true →
  route_match rx (mkRoute m p h me) ctx (strings.Split u)
  = Some (ctx, bool_decide (u = p)).
Proof.
  intros Hlit. pose proof (literal_not_wildcard _ Hlit) as Hnw.
  assert (Hw : strings.HasSuffix p "/..." = false).
  { destruct (strings.HasSuffix p "/...") eqn:Hs; [|done].
    destruct (HasSuffix_wildcard_Split _ Hs) as (x & xs & Hx & Hin).
    exfalso. apply Hnw. rewrite Hx. by apply list_elem_of_further. }
  unfold route_match. simpl. rewrite Hw. simpl.
  destruct (Nat.eqb_spec (length (strings.Split u)) (length (strings.Split p)))
    as [Hlen|Hlen]; simpl.
  - rewrite match_loop_literal by (done || lia). rewrite drop_0.
    f_equal. f_equal. apply bool_decide_ext. split; [apply Split_inj|by intros ->].
  - f_equal. f_equal. symmetry. apply bool_decide_eq_false_2. by intros ->.
Qed.

(** X2: matching only adds values under the keys of the route: a key
    that no segment of the route binds reads after [match] as before
    it, whether the match succeeded or not; in particular [Param] still
    gives the empty string for a key that is bound nowhere. *)
Theorem match_keeps_other_values rx rt ctx ctx' ok url k :
  (∀ segment, segment ∈ segments rt → segment_key segment ≠ Some k) →
  route_match rx rt ctx url = Some (ctx', ok) →
  Value ctx' k = Value ctx k
  ∧ Param ctx' k = Param ctx k
  ∧ (Value ctx k = None → Param ctx' k = "").
Proof.
  intros Hk Hm.
  assert (HV : Value ctx' k = Value ctx k).
  { unfold route_match in Hm. destruct (_ && _).
    - by injection Hm as <- _.
    - by eapply match_loop_keeps_Value. }
  unfold Param. rewrite HV. split; [done|]. split; [done|]. by intros ->.
Qed.

(** X3: after a successful match, [Param] gives for a parameter name
    the request segment at the index of the parameter, provided no
    marker [...] precedes the parameter and no later segment of the
    route binds the same name; of two parameters with one name the
    later is read. *)
Theorem Param_returns_the_bound_segment
    rx rt ctx ctx' url pre segment post name :
  segments rt = pre ++ segment :: post →
  "..." ∉ pre →
  segment ≠ "..." →
  segment_key segment = Some name →
  (∀ s, s ∈ post → segment_key s ≠ Some name) →
  route_match rx rt ctx url = Some (ctx', true) →
  ∃ u, url !! length pre = Some u ∧ Param ctx' name = u.
Proof.
  intros Hsegs Hpre Hseg Hkey Hpost Hm%route_match_loop.
  rewrite Hsegs, (match_loop_app _ _ _ _ _ _ Hpre) in Hm.
  destruct (match_loop rx pre 0 ctx url) as [[c1 [|]]|]; [|done..].
  simpl in Hm.
  pose proof (match_segment_other rx (length pre) segment c1 url Hseg) as Ho.
  destruct (match_segment rx (length pre) segment c1 url) as [c2|c2 ok|] eqn:Hs;
    [|subst ok; done|done].
  destruct (match_segment_param_continue _ _ _ _ _ _ _ Hseg Hkey Hs)
    as (u & Hu & ->).
  exists u. split; [done|]. unfold Param.
  rewrite (match_loop_keeps_Value _ _ _ _ _ _ _ _ Hpost Hm). simpl.
  by rewrite String.eqb_refl.
Qed.

(** X4: a route without the wildcard flag that matches a request path
    matches no longer path obtained by appending a slash and more text,
    and hands back the context it was given. *)
Theorem exact_route_rejects_longer_path rx rt ctx ctx' u t :
  wildcard rt = false →
  route_match rx rt ctx (strings.Split u) = Some (ctx', true) →
  route_match rx rt ctx (strings.Split (u +:+ String strings.slash t))
  = Some (ctx, false).
Proof.
  intros Hw [Hlen _]%route_match_exact; [|done].
  unfold route_match. rewrite Hw, Split_app_slash, length_app. simpl.
  pose proof (Split_nonempty t) as Ht.
  destruct (Nat.eqb_spec (length (strings.Split u) + length (strings.Split t))
              (length (segments rt))) as [Heq|_]; [|done].
  destruct (strings.Split t); [done|]. simpl in Heq. lia.
Qed.

End MatcherMore.

(** ** The dispatcher *)

Section DispatcherMore.

Context `{GoLib}.

Implicit Types (rx : gmap string Regexp) (r : Request).
Implicit Types (rt : route) (rs : list route) (w : ResponseWriter).

Lemma filter_not_in_nil (l : list string) : filter (λ y, y ∉ []) l = l.
Proof.
  induction l as [|y l IH]; [done|].
  rewrite filter_cons_True by apply not_elem_of_nil. by rewrite IH.
Qed.

Lemma ServeHTTP_loop_outcome m rx w r rs (allowed : list string) :
  compiled rx rs →
  ServeHTTP_loop m rx w r (strings.Split (URL_Path r)) rs allowed
  = Some
      match head (filter (λ rt, method rt = Method r) (hits rx r rs)) with
      | Some rt => handler rt w (WithContext r (bound_context rx r rt))
      | None =>
          ServeHTTP_rest m w r
            (allowed ++ filter (λ y, y ∉ allowed) (allowed_methods rx r rs))
      end.
Proof.
  unfold allowed_methods, hits. revert allowed.
  induction rs as [|rt rs IH]; intros allowed Hrx; simpl.
  - by rewrite app_nil_r.
  - destruct (route_match_no_panic rx (rt :: rs) rt (Context_ r)
                (strings.Split (URL_Path r)) Hrx) as [[c ok] Hrt];
      [apply list_elem_of_here|].
    rewrite Hrt.
    assert (path_ok rx (Context_ r) (strings.Split (URL_Path r)) rt = ok)
      as Hok by (unfold path_ok; by rewrite Hrt).
    apply compiled_cons in Hrx.
    destruct ok.
    + rewrite (filter_cons_True _ rt) by done.
      destruct (String.eqb_spec (Method r) (method rt)) as [Heq|Hne].
      * rewrite filter_cons_True by done. simpl.
        unfold bound_context. by rewrite Hrt.
      * rewrite filter_cons_False by done. rewrite IH by done.
        rewrite fmap_cons. by rewrite collected_cons.
    + rewrite (filter_cons_False _ rt) by congruence. by apply IH.
Qed.

(** X5: with the regular expressions of the table compiled, a request
    has exactly one outcome.  If some route matches its path and has
    its method, the handler of the first such route of the table is
    invoked, on the request with the context bound by that route;
    otherwise the dispatcher goes on to the answers 405, automatic
    OPTIONS or 404 with the methods of all the routes that matched the
    path. *)
Theorem ServeHTTP_outcome m st w r rs :
  tables st !! routes m = Some rs →
  compiled (rxPatterns st) rs →
  ServeHTTP m st w r
  = Some
      match head (filter (λ rt, method rt = Method r)
                    (hits (rxPatterns st) r rs)) with
      | Some rt =>
          handler rt w (WithContext r (bound_context (rxPatterns st) r rt))
      | None => ServeHTTP_rest m w r (allowed_methods (rxPatterns st) r rs)
      end.
Proof.
  intros Hrs Hrx. unfold ServeHTTP. rewrite Hrs.
  rewrite ServeHTTP_loop_outcome by done. simpl.
  by rewrite filter_not_in_nil.
Qed.

(** X6: when no route of the table matches the path of the request, the
    dispatcher invokes the [NotFound] handler, wrapped in the middleware
    the router has at that moment, on the untouched response writer: no
    header [Allow] is set.  The [NotFound] handler of [New] writes the
    status 404 and the text [404 page not found]. *)
Theorem unmatched_path_is_not_found m st w r rs :
  tables st !! routes m = Some rs →
  compiled (rxPatterns st) rs →
  hits (rxPatterns st) r rs = [] →
  ServeHTTP m st w r = Some (wrap m (NotFound m) w r)
  ∧ (middleware m = [] → ServeHTTP m st w r = Some (NotFound m w r))
  ∧ (∀ (a : loc) w' r',
       Code w' = None →
       Code (NotFound (New a) w' r') = Some 404
       ∧ Body (NotFound (New a) w' r')
         = Body w' +:+ "404 page not found" +:+ String (ascii_of_nat 10) ""
       ∧ Header (NotFound (New a) w' r') !! "Allow" = Header w' !! "Allow").
Proof.
  intros Hrs Hrx Hhits.
  assert (Hserve : ServeHTTP m st w r = Some (wrap m (NotFound m) w r)).
  { rewrite (ServeHTTP_miss _ _ _ _ _ Hrs Hrx).
    - unfold allowed_methods. by rewrite Hhits.
    - rewrite Hhits. by intros rt ?%elem_of_nil. }
  split; [done|]. split.
  - intros Hm. rewrite Hserve. unfold wrap. by rewrite Hm.
  - intros a w' r' Hcode. simpl.
    unfold NotFoundHandler, http_Error, Write, WriteHeader. simpl.
    rewrite Hcode. simpl. split; [done|]. split; [done|].
    rewrite !lookup_insert_ne by done. by rewrite lookup_delete_ne.
Qed.

Lemma World_ok_New (a : loc) st : World_ok st → World_ok (New_world a st).
Proof.
  intros Hok a' rs Hrs rt segment k src Hrt. simpl in Hrs.
  destruct (decide (a = a')) as [->|Hne].
  - rewrite lookup_insert_eq in Hrs. injection Hrs as <-.
    by apply elem_of_nil in Hrt.
  - rewrite lookup_insert_ne in Hrs by done. simpl.
    by apply (Hok a' rs Hrs rt segment k src).
Qed.

Lemma Handle_compile_sound segs st st' :
  Handle_compile segs st = Done st' →
  cache_sound (rxPatterns st) → cache_sound (rxPatterns st').
Proof.
  revert st. induction segs as [|segment segs IH]; intros st; simpl.
  - by intros [= ->].
  - destruct (strings.HasPrefix segment ":"); [|apply IH].
    destruct (strings.Cut segment) as [[k rxPattern] [|]]; [|apply IH].
    destruct (MustCompile rxPattern) as [re|] eqn:Hre; [|done].
    intros Hrun Hsound. apply (IH _ Hrun). simpl. intros src re'.
    destruct (decide (rxPattern = src)) as [->|Hne].
    + rewrite lookup_insert_eq. by intros [= <-].
    + rewrite lookup_insert_ne by done. apply Hsound.
Qed.

(** A [Handle] that returns found the table of its router and ran both
    of its loops to their end. *)
Lemma Handle_Done_inv m pattern h methods st st' :
  Handle m pattern h methods st = Done st' →
  ∃ old st1,
    tables st !! routes m = Some old
    ∧ rxPatterns st1 = rxPatterns st
    ∧ Handle_compile (strings.Split pattern) st1 = Done st'.
Proof.
  unfold Handle. intros Hrun.
  destruct (tables st !! routes m) as [old|] eqn:Hold.
  - destruct (Handle_routes_spec m pattern h (Handle_methods methods) st old Hold)
      as (st1 & Hroutes & Hrx & _).
    rewrite Hroutes in Hrun. by exists old, st1.
  - exfalso. unfold Handle_methods in Hrun.
    destruct (if length methods =? 0 then allMethods else methods)
      as [|me l] eqn:Hms; [by destruct methods|].
    assert (∃ me' l', (if contains (me :: l) MethodGet
                          && negb (contains (me :: l) MethodHead)
                       then (me :: l) ++ [MethodGet] else me :: l) = me' :: l')
      as (me' & l' & Heq) by (destruct (_ && _); simpl; eauto).
    rewrite Heq in Hrun. simpl in Hrun. by rewrite Hold in Hrun.
Qed.

Lemma built_invariants st :
  built st → World_ok st ∧ cache_sound (rxPatterns st).
Proof.
  induction 1 as [|a st _ [IHok IHc] _|m pattern h methods st st' _ [IHok IHc] Hrun].
  - split; [|done]. intros a rs Hrs. simpl in Hrs. by rewrite lookup_empty in Hrs.
  - split; [by apply World_ok_New|done].
  - split; [by eapply Handle_World_ok|].
    destruct (Handle_Done_inv _ _ _ _ _ _ Hrun) as (old & st1 & _ & Hrx & Hc).
    apply (Handle_compile_sound _ _ _ Hc). by rewrite Hrx.
Qed.

(** X7: in a world built by calls of [New] and calls of [Handle] that
    returned, [ServeHTTP] does not panic on any request, for any router
    whose route table exists; it panics on a router without table. *)
Theorem built_world_serves_every_request st m w r :
  built st →
  (is_Some (ServeHTTP m st w r) ↔ is_Some (tables st !! routes m)).
Proof.
  intros [Hok _]%built_invariants. unfold ServeHTTP.
  destruct (tables st !! routes m) as [rs|] eqn:Hrs.
  - rewrite (ServeHTTP_loop_outcome _ _ _ _ _ _ (Hok _ _ Hrs)).
    split; eauto.
  - split; intros [? ?]; done.
Qed.

(** X8: in such a world every regular expression that a segment of a
    registered route names is in [rxPatterns], and what [rxPatterns]
    holds under a source is the compilation of that source: [match]
    tests a request segment against the expression written in the
    pattern. *)
Theorem built_world_has_the_patterns_compiled
    st (a : loc) rs rt segment k src :
  built st →
  tables st !! a = Some rs →
  rt ∈ rs →
  segment ∈ segments rt →
  strings.HasPrefix segment ":" = true →
  strings.Cut (strings.TrimPrefix segment ":") = (k, src, true) →
  ∃ re, rxPatterns st !! src = Some re ∧ MustCompile src = Some re.
Proof.
  intros [Hok Hsound]%built_invariants Hrs Hrt Hseg Hp Hcut.
  destruct (Hok a rs Hrs rt segment k src Hrt Hseg Hp Hcut) as [re Hre].
  exists re. split; [done|]. by apply Hsound.
Qed.

End DispatcherMore.

(** ** Registration *)

Section RegistrationMore.

Context `{GoLib}.

Implicit Types (m : Mux) (st : World) (h : Handler) (rs old : list route).
Implicit Types (methods : list string).

Lemma Handle_methods_cons methods :
  ∃ me l, Handle_methods methods = me :: l.
Proof.
  unfold Handle_methods.
  destruct (if length methods =? 0 then allMethods else methods)
    as [|me l] eqn:Hms; [by destruct methods|].
  destruct (_ && _); simpl; eauto.
Qed.

Lemma Handle_routes_nil_table m pattern h methods st :
  tables st !! routes m = None →
  Handle m pattern h methods st = Panicked st.
Proof.
  intros Hnil. unfold Handle.
  destruct (Handle_methods_cons methods) as (me & l & ->). simpl.
  by rewrite Hnil.
Qed.

Lemma Handle_compile_panics segs st :
  (∃ st', Handle_compile segs st = Panicked st')
  ↔ ∃ segment k src,
      segment ∈ segs
      ∧ strings.HasPrefix segment ":" = true
      ∧ strings.Cut segment = (k, src, true)
      ∧ MustCompile src = None.
Proof.
  revert st. induction segs as [|segment segs IH]; intros st; simpl.
  - split; [by intros [? ?]|]. by intros (? & ? & ? & ?%elem_of_nil & _).
  - assert (Htail : (∃ st', Handle_compile segs st = Panicked st') →
                    ∃ s k src, s ∈ segment :: segs
                      ∧ strings.HasPrefix s ":" = true
                      ∧ strings.Cut s = (k, src, true)
                      ∧ MustCompile src = None).
    { intros (s & k & src & Hin & Hrest)%IH.
      exists s, k, src. split; [by apply list_elem_of_further|done]. }
    assert (Htail' : ∀ st2, (∃ st', Handle_compile segs st2 = Panicked st') →
                    ∃ s k src, s ∈ segment :: segs
                      ∧ strings.HasPrefix s ":" = true
                      ∧ strings.Cut s = (k, src, true)
                      ∧ MustCompile src = None).
    { intros st2 (s & k & src & Hin & Hrest)%IH.
      exists s, k, src. split; [by apply list_elem_of_further|done]. }
    destruct (strings.HasPrefix segment ":") eqn:Hp.
    + destruct (strings.Cut segment) as [[k0 src0] [|]] eqn:Hcut.
      * destruct (MustCompile src0) as [re|] eqn:Hre.
        -- split; [apply Htail'|].
           intros (s & k & src & [->|Hin]%elem_of_cons & Hps & Hcs & Hbad).
           ++ rewrite Hcut in Hcs. injection Hcs as _ <-. congruence.
           ++ apply IH. eauto 8.
        -- split; [|eauto]. intros _. exists segment, k0, src0.
           split; [apply list_elem_of_here|done].
      * split; [apply Htail'|].
        intros (s & k & src & [->|Hin]%elem_of_cons & Hps & Hcs & Hbad).
        -- congruence.
        -- apply IH. eauto 8.
    + split; [apply Htail'|].
      intros (s & k & src & [->|Hin]%elem_of_cons & Hps & Hcs & Hbad).
      * congruence.
      * apply IH. eauto 8.
Qed.

(** X9: [Handle] panics exactly when the router has no route table or
    the pattern has a parameter whose regular expression does not
    compile.  Without table nothing is changed.  With a table, the
    routes are appended before the expressions are compiled: they are
    in the table also in the state in which [Handle] panics. *)
Theorem Handle_panics_iff m pattern h methods st :
  ((∃ st', Handle m pattern h methods st = Panicked st')
   ↔ tables st !! routes m = None ∨ malformed pattern)
  ∧ (tables st !! routes m = None →
     Handle m pattern h methods st = Panicked st)
  ∧ (∀ old, tables st !! routes m = Some old →
       tables (world_of (Handle m pattern h methods st)) !! routes m
       = Some (old ++ (mkRoute m pattern h <$> Handle_methods methods))).
Proof.
  split; [|split; [apply Handle_routes_nil_table|intros; by apply Handle_tables]].
  destruct (tables st !! routes m) as [old|] eqn:Hold.
  - unfold Handle.
    destruct (Handle_routes_spec m pattern h (Handle_methods methods) st old Hold)
      as (st1 & -> & _ & _).
    rewrite Handle_compile_panics. unfold malformed.
    split; [by right|]. by intros [?|?].
  - rewrite (Handle_routes_nil_table _ _ _ _ _ Hold). split; eauto.
Qed.

Lemma Handle_routes_frame m pattern h methods st (a : loc) :
  a ≠ routes m →
  tables (world_of (Handle_routes m pattern h methods st)) !! a
  = tables st !! a.
Proof.
  intros Hne. revert st.
  induction methods as [|me methods IH]; intros st; simpl; [done|].
  destruct (tables st !! routes m) as [old|]; [|done].
  rewrite IH. simpl. by rewrite lookup_insert_ne.
Qed.

Lemma Handle_routes_rx m pattern h methods st :
  rxPatterns (world_of (Handle_routes m pattern h methods st)) = rxPatterns st.
Proof.
  revert st. induction methods as [|me methods IH]; intros st; simpl; [done|].
  destruct (tables st !! routes m) as [old|]; [|done]. by rewrite IH.
Qed.

Lemma Handle_compile_grows segs st src :
  is_Some (rxPatterns st !! src) →
  is_Some (rxPatterns (world_of (Handle_compile segs st)) !! src).
Proof.
  revert st. induction segs as [|segment segs IH]; intros st; simpl; [done|].
  destruct (strings.HasPrefix segment ":"); [|apply IH].
  destruct (strings.Cut segment) as [[k rxPattern] [|]]; [|apply IH].
  destruct (MustCompile rxPattern) as [re|]; [|done].
  intros Hsrc. apply IH. simpl.
  destruct (decide (rxPattern = src)) as [->|Hne].
  - rewrite lookup_insert_eq. eauto.
  - by rewrite lookup_insert_ne.
Qed.

Lemma Handle_compile_keeps_values segs st src re :
  cache_sound (rxPatterns st) →
  rxPatterns st !! src = Some re →
  rxPatterns (world_of (Handle_compile segs st)) !! src = Some re.
Proof.
  revert st. induction segs as [|segment segs IH]; intros st; simpl; [done|].
  destruct (strings.HasPrefix segment ":"); [|apply IH].
  destruct (strings.Cut segment) as [[k rxPattern] [|]]; [|apply IH].
  destruct (MustCompile rxPattern) as [re'|] eqn:Hre; [|done].
  intros Hsound Hsrc. apply IH; simpl.
  - intros src0 re0. destruct (decide (rxPattern = src0)) as [->|Hne].
    + rewrite lookup_insert_eq. by intros [= <-].
    + rewrite lookup_insert_ne by done. apply Hsound.
  - destruct (decide (rxPattern = src)) as [->|Hne].
    + rewrite lookup_insert_eq. f_equal.
      pose proof (Hsound _ _ Hsrc). congruence.
    + by rewrite lookup_insert_ne.
Qed.

Lemma Handle_world_of m pattern h methods st :
  ∃ st1,
    world_of (Handle_routes m pattern h (Handle_methods methods) st) = st1
    ∧ (world_of (Handle m pattern h methods st) = st1
       ∨ world_of (Handle m pattern h methods st)
         = world_of (Handle_compile (strings.Split pattern) st1)).
Proof.
  unfold Handle.
  destruct (Handle_routes m pattern h (Handle_methods methods) st) as [st1|st1];
    exists st1; simpl; eauto.
Qed.

(** X10: [Handle] on one router leaves the route table of every other
    address as it was, keeps the routes its own table had, in front of
    the new ones, and removes no source from [rxPatterns]; where
    [rxPatterns] held compilations of its sources, every entry keeps
    its value.  This holds also when [Handle] panics. *)
Theorem Handle_changes_only_its_table m pattern h methods st :
  (∀ a : loc, a ≠ routes m →
     tables (world_of (Handle m pattern h methods st)) !! a = tables st !! a)
  ∧ (∀ old, tables st !! routes m = Some old →
       ∃ new, tables (world_of (Handle m pattern h methods st)) !! routes m
              = Some (old ++ new))
  ∧ (∀ src, is_Some (rxPatterns st !! src) →
       is_Some (rxPatterns (world_of (Handle m pattern h methods st)) !! src))
  ∧ (cache_sound (rxPatterns st) →
     ∀ src re, rxPatterns st !! src = Some re →
       rxPatterns (world_of (Handle m pattern h methods st)) !! src = Some re).
Proof.
  destruct (Handle_world_of m pattern h methods st) as (st1 & Hst1 & Hw).
  pose proof (Handle_routes_rx m pattern h (Handle_methods methods) st) as Hrx.
  rewrite Hst1 in Hrx.
  split; [|split; [|split]].
  - intros a Hne.
    pose proof (Handle_routes_frame m pattern h (Handle_methods methods) st a Hne)
      as Hf.
    rewrite Hst1 in Hf.
    destruct Hw as [->| ->]; [done|]. by rewrite Handle_compile_tables.
  - intros old Hold. eexists. by apply Handle_tables.
  - intros src Hsrc. destruct Hw as [->| ->].
    + by rewrite Hrx.
    + apply Handle_compile_grows. by rewrite Hrx.
  - intros Hsound src re Hsrc. destruct Hw as [->| ->].
    + by rewrite Hrx.
    + apply Handle_compile_keeps_values; by rewrite Hrx.
Qed.

(** X11: [Handle] without methods registers the pattern for the eight
    methods DELETE, GET, HEAD, OPTIONS, PATCH, POST, PUT and TRACE, one
    route each and in this order; [GET] is not doubled, since [HEAD] is
    among them. *)
Theorem Handle_without_methods_registers_all m pattern h st old :
  tables st !! routes m = Some old →
  tables (world_of (Handle m pattern h [] st)) !! routes m
  = Some (old ++ (mkRoute m pattern h <$> allMethods))
  ∧ method <$> (mkRoute m pattern h <$> allMethods)
    = ["DELETE"; "GET"; "HEAD"; "OPTIONS"; "PATCH"; "POST"; "PUT"; "TRACE"].
Proof.
  intros Hold. split; [|reflexivity].
  by rewrite (Handle_tables _ _ _ _ _ _ Hold).
Qed.

(** X12: [Handle] looks for [GET] and [HEAD] in the methods as they are
    given and upper-cases them only when it builds the routes.  When the
    given methods do not contain the text [GET], or contain the text
    [HEAD], exactly one route per given method is registered, with the
    method in upper case; so [Handle] with the method [get] registers a
    single [GET] route. *)
Theorem Handle_registers_each_given_method_once m pattern h methods st old :
  tables st !! routes m = Some old →
  methods ≠ [] →
  contains methods MethodGet && negb (contains methods MethodHead) = false →
  tables (world_of (Handle m pattern h methods st)) !! routes m
  = Some (old ++ (mkRoute m pattern h <$> methods))
  ∧ method <$> (mkRoute m pattern h <$> methods) = ToUpper <$> methods.
Proof.
  intros Hold Hne Hrule. split.
  - rewrite (Handle_tables _ _ _ _ _ _ Hold). unfold Handle_methods.
    destruct methods as [|me l]; [done|]. cbn [length Nat.eqb].
    by rewrite Hrule.
  - rewrite <- list_fmap_compose. by apply list_fmap_ext.
Qed.

(** X13: middleware given to [Use] later is nearer to the handler:
    [wrap] after [Use] is [wrap] before it, around the new middleware
    around the handler.  Two calls of [Use] amount to one with the
    lists appended, and a router without middleware wraps nothing. *)
Theorem wrap_after_Use m mws mws' h :
  wrap (Use m mws) h = wrap m (foldr (λ mw h', mw h') h mws)
  ∧ Use (Use m mws) mws' = Use m (mws ++ mws')
  ∧ (middleware m = [] → wrap m h = h ∧ wrap (Use m mws) h = foldr (λ mw h', mw h') h mws).
Proof.
  assert (Hwrap : wrap (Use m mws) h = wrap m (foldr (λ mw h', mw h') h mws)).
  { rewrite !wrap_foldr. simpl. by rewrite foldr_app. }
  split; [done|]. split.
  - unfold Use. simpl. by rewrite app_assoc.
  - intros Hm. rewrite Hwrap, !wrap_foldr, Hm. done.
Qed.

Lemma upperByte_not_lower c :
  (97 <=? nat_of_ascii (strings.upperByte c))
  && (nat_of_ascii (strings.upperByte c) <=? 122) = false.
Proof.
  unfold strings.upperByte.
  destruct ((97 <=? nat_of_ascii c) && (nat_of_ascii c <=? 122)) eqn:Hc; [|done].
  apply andb_true_iff in Hc as [Hlo%Nat.leb_le Hhi%Nat.leb_le].
  rewrite nat_ascii_embedding by lia.
  apply andb_false_iff. left. apply Nat.leb_gt. lia.
Qed.

Lemma mapBytes_upper_not_lower s :
  hasLower (strings.mapBytes strings.upperByte s) = false.
Proof.
  induction s as [|c s IH]; [done|].
  cbn [hasLower strings.mapBytes]. by rewrite upperByte_not_lower, IH.
Qed.

Lemma hasLower_ne s s' : hasLower s = true → hasLower s' = false → s' ≠ s.
Proof. intros Hs Hs' ->. congruence. Qed.

(** X14: a route registered with an ASCII method has it in upper case,
    while the method of a request is compared as it arrives.  A request
    whose method has a lower-case letter is therefore never given to a
    route whose method has none: it gets the answers for a method
    mismatch or for an unknown path. *)
Theorem lower_case_request_method_reaches_no_route :
  (∀ m pattern h me,
     strings.isASCII me = true →
     hasLower (method (mkRoute m pattern h me)) = false)
  ∧ (∀ m st w r rs,
       tables st !! routes m = Some rs →
       compiled (rxPatterns st) rs →
       Forall (λ rt, hasLower (method rt) = false) rs →
       hasLower (Method r) = true →
       ServeHTTP m st w r
       = Some (ServeHTTP_rest m w r (allowed_methods (rxPatterns st) r rs))).
Proof.
  split.
  - intros m pattern h me Hascii. simpl. unfold ToUpper. rewrite Hascii.
    apply mapBytes_upper_not_lower.
  - intros m st w r rs Hrs Hrx Hupper Hlower.
    apply ServeHTTP_miss; [done..|].
    intros rt [_ Hrt]%list_elem_of_filter.
    apply hasLower_ne; [done|].
    by apply (proj1 (Forall_forall _ _) Hupper).
Qed.

End RegistrationMore.

(** ** Registration, then dispatch *)

Section EndToEnd.

Context `{GoLib}.

(** X15: register a pattern for one method on a router whose world has
    its regular expressions compiled.  A request with that method, in
    upper case, whose path matches the pattern is served by the handler
    given to [Handle], wrapped in the middleware the router had at that
    call and applied to the context bound by the match, unless a route
    registered earlier matches path and method.  Any router value with
    the same table serves it so, whatever its own middleware. *)
Theorem registered_route_is_served m m' pattern h me st st' old w r ctx' :
  World_ok st →
  tables st !! routes m = Some old →
  Handle m pattern h [me] st = Done st' →
  routes m' = routes m →
  (∀ rt, rt ∈ hits (rxPatterns st') r old → method rt ≠ Method r) →
  Method r = ToUpper me →
  route_match (rxPatterns st') (mkRoute m pattern h me) (Context_ r)
    (strings.Split (URL_Path r)) = Some (ctx', true) →
  ServeHTTP m' st' w r
  = Some (foldr (λ mw h', mw h') h (middleware m) w (WithContext r ctx')).
Proof.
  intros Hok Hold Hrun Hsame Hmiss Hmethod Hmatch.
  pose proof (Handle_World_ok _ _ _ _ _ _ Hok Hrun) as Hok'.
  pose proof (Handle_tables m pattern h [me] st old Hold) as Ht.
  rewrite Hrun in Ht. simpl in Ht.
  assert (∃ post, Handle_methods [me] = me :: post) as [post Hms].
  { unfold Handle_methods. simpl. destruct (_ && _); simpl; eauto. }
  rewrite Hms in Ht. simpl in Ht.
  unfold ServeHTTP. rewrite Hsame, Ht.
  rewrite <- wrap_foldr.
  apply (ServeHTTP_loop_hit m' (rxPatterns st') w r _ old
           (mkRoute m pattern h me) (mkRoute m pattern h <$> post) [] ctx').
  - apply Forall_forall. intros rt Hrt.
    destruct (route_match_no_panic (rxPatterns st') _ rt (Context_ r)
                (strings.Split (URL_Path r)) (Hok' _ _ Ht)) as [[c ok] Hrm].
    { apply elem_of_app. by left. }
    exists c, ok. split; [done|]. intros ->. apply Hmiss.
    apply list_elem_of_filter. split; [|done].
    unfold path_ok. by rewrite Hrm.
  - done.
  - done.
Qed.

End EndToEnd.

(** ** The further properties on the data of the examples *)

Lemma world0_built : built world0.
Proof. exact (built_New 0 _ built_empty eq_refl). Defined.

Lemma usersWorld_built : built usersWorld.
Proof.
  exact (built_Handle mux0 "/users/:id|[0-9]+" (say "user") ["POST"] world0
           usersWorld world0_built eq_refl).
Defined.

Lemma dupWorld_built : built dupWorld.
Proof.
  refine (built_Handle mux0 "/dup" (say "second") ["POST"] _ dupWorld
            (built_Handle mux0 "/dup" (say "first") ["POST"] _ _
               (built_Handle mux0 "/other" (say "other") ["POST"] world0 _
                  world0_built eq_refl) eq_refl) eq_refl).
Defined.

Lemma no_key_in (l : list string) (k : string) :
  forallb (λ s, negb (bool_decide (segment_key s = Some k))) l = true →
  ∀ s, s ∈ l → segment_key s ≠ Some k.
Proof.
  induction l as [|a l IH]; simpl; intros Hl s Hs.
  - by apply elem_of_nil in Hs.
  - apply andb_true_iff in Hl as [Ha Hl].
    apply elem_of_cons in Hs as [->|Hs]; [|by apply IH].
    apply negb_true_iff in Ha. by apply bool_decide_eq_false_1 in Ha.
Defined.

Lemma literal_pattern_matches_only_itself_witness :
  forallb literal (strings.Split "/about") = true
  ∧ route_match ∅ (mkRoute mux0 "/about" (say "about") "GET") []
      (strings.Split "/about/")
    = Some ([], bool_decide ("/about/" = "/about"))
  ∧ route_match ∅ (mkRoute mux0 "/about" (say "about") "GET") []
      (strings.Split "/About")
    = Some ([], bool_decide ("/About" = "/about")).
Proof.
  assert (Hlit : forallb literal (strings.Split "/about") = true)
    by reflexivity.
  exact (conj Hlit
           (conj (literal_pattern_matches_only_itself ∅ mux0 "/about"
                    (say "about") "GET" [] "/about/" Hlit)
                 (literal_pattern_matches_only_itself ∅ mux0 "/about"
                    (say "about") "GET" [] "/About" Hlit))).
Defined.

Lemma match_keeps_other_values_witness :
  route_match (rxPatterns usersWorld) usersRoute [("user", "ann")]
    (strings.Split "/users/42")
  = Some ([("id", "42"); ("user", "ann")], true)
  ∧ Param [("id", "42"); ("user", "ann")] "user" = Param [("user", "ann")] "user"
  ∧ Param [("id", "42"); ("user", "ann")] "user" = "ann".
Proof.
  assert (Hk : ∀ s, s ∈ segments usersRoute → segment_key s ≠ Some "user")
    by (apply no_key_in; reflexivity).
  assert (Hm : route_match (rxPatterns usersWorld) usersRoute [("user", "ann")]
                 (strings.Split "/users/42")
               = Some ([("id", "42"); ("user", "ann")], true))
    by (vm_compute; reflexivity).
  destruct (match_keeps_other_values _ _ _ _ _ _ _ Hk Hm) as (_ & HP & _).
  exact (conj Hm (conj HP eq_refl)).
Defined.

Lemma Param_returns_the_bound_segment_witness :
  segments twoIdsRoute = [""; ":id"] ++ ":id" :: []
  ∧ route_match ∅ twoIdsRoute [] (strings.Split "/a/b")
    = Some ([("id", "b"); ("id", "a")], true)
  ∧ (∃ u, strings.Split "/a/b" !! 2 = Some u
          ∧ Param [("id", "b"); ("id", "a")] "id" = u).
Proof.
  assert (Hsegs : segments twoIdsRoute = [""; ":id"] ++ ":id" :: [])
    by reflexivity.
  assert (Hm : route_match ∅ twoIdsRoute [] (strings.Split "/a/b")
               = Some ([("id", "b"); ("id", "a")], true)) by reflexivity.
  assert (Hpre : "..." ∉ [""; ":id"]) by (apply not_in_segments; reflexivity).
  assert (Hseg : ":id" ≠ "...") by discriminate.
  assert (Hpost : ∀ s, s ∈ [] → segment_key s ≠ Some "id")
    by (apply no_key_in; reflexivity).
  exact (conj Hsegs (conj Hm
           (Param_returns_the_bound_segment ∅ twoIdsRoute [] _ _ _ _ _ "id"
              Hsegs Hpre Hseg eq_refl Hpost Hm))).
Defined.

Lemma exact_route_rejects_longer_path_witness :
  wildcard (mkRoute mux0 "/users/:id" (say "user") "GET") = false
  ∧ route_match ∅ (mkRoute mux0 "/users/:id" (say "user") "GET") []
      (strings.Split "/users/42") = Some ([("id", "42")], true)
  ∧ route_match ∅ (mkRoute mux0 "/users/:id" (say "user") "GET") []
      (strings.Split "/users/42/edit") = Some ([], false).
Proof.
  exact (conj eq_refl (conj eq_refl
           (exact_route_rejects_longer_path ∅
              (mkRoute mux0 "/users/:id" (say "user") "GET") []
              [("id", "42")] "/users/42" "edit" eq_refl eq_refl))).
Defined.

Lemma ServeHTTP_outcome_witness :
  (∃ rs, tables dupWorld !! routes mux0 = Some rs
         ∧ compiled (rxPatterns dupWorld) rs
         ∧ ServeHTTP mux0 dupWorld recorder (request "POST" "/dup")
           = Some
               match head (filter (λ rt, method rt = "POST")
                             (hits (rxPatterns dupWorld)
                                (request "POST" "/dup") rs)) with
               | Some rt =>
                   handler rt recorder
                     (WithContext (request "POST" "/dup")
                        (bound_context (rxPatterns dupWorld)
                           (request "POST" "/dup") rt))
               | None =>
                   ServeHTTP_rest mux0 recorder (request "POST" "/dup")
                     (allowed_methods (rxPatterns dupWorld)
                        (request "POST" "/dup") rs)
               end)
  ∧ (Body <$> ServeHTTP mux0 dupWorld recorder (request "POST" "/dup"))
    = Some "first".
Proof.
  split; [|reflexivity].
  eexists. assert (Hrs : tables dupWorld !! routes mux0 = Some _)
    by reflexivity.
  pose proof (proj1 (built_invariants _ dupWorld_built) _ _ Hrs) as Hrx.
  exact (conj Hrs (conj Hrx
           (ServeHTTP_outcome mux0 dupWorld recorder (request "POST" "/dup")
              _ Hrs Hrx))).
Defined.

Lemma unmatched_path_is_not_found_witness :
  hits (rxPatterns usersWorld) (request "GET" "/nope") [usersRoute] = []
  ∧ ServeHTTP mux0 usersWorld recorder (request "GET" "/nope")
    = Some (NotFound mux0 recorder (request "GET" "/nope"))
  ∧ (r ← ServeHTTP mux0 usersWorld recorder (request "GET" "/nope");
     Some (Code r, Header r !! "Allow")) = Some (Some 404, None).
Proof.
  assert (Hrs : tables usersWorld !! routes mux0 = Some [usersRoute])
    by reflexivity.
  assert (Hhits : hits (rxPatterns usersWorld) (request "GET" "/nope")
                    [usersRoute] = []) by reflexivity.
  pose proof (proj1 (built_invariants _ usersWorld_built) _ _ Hrs) as Hrx.
  destruct (unmatched_path_is_not_found mux0 usersWorld recorder
              (request "GET" "/nope") _ Hrs Hrx Hhits) as (Hserve & _).
  refine (conj Hhits (conj Hserve _)). rewrite Hserve. reflexivity.
Defined.

Lemma built_world_serves_every_request_witness :
  built usersWorld
  ∧ is_Some (ServeHTTP mux0 usersWorld recorder (request "POST" "/users/7"))
  ∧ ¬ is_Some (ServeHTTP (New 5) usersWorld recorder (request "POST" "/users/7")).
Proof.
  refine (conj usersWorld_built (conj _ _)).
  - apply (built_world_serves_every_request usersWorld mux0 recorder
             (request "POST" "/users/7") usersWorld_built).
    by eexists.
  - intros Hsome.
    apply (built_world_serves_every_request usersWorld (New 5) recorder
             (request "POST" "/users/7") usersWorld_built) in Hsome.
    destruct Hsome as [rs Hrs]. discriminate Hrs.
Defined.

Lemma built_world_has_the_patterns_compiled_witness :
  built usersWorld
  ∧ strings.Cut (strings.TrimPrefix ":id|[0-9]+" ":") = ("id", "[0-9]+", true)
  ∧ (∃ re, rxPatterns usersWorld !! "[0-9]+" = Some re
           ∧ MustCompile "[0-9]+" = Some re).
Proof.
  refine (conj usersWorld_built (conj eq_refl _)).
  apply (built_world_has_the_patterns_compiled usersWorld 0 [usersRoute]
           usersRoute ":id|[0-9]+" "id" "[0-9]+" usersWorld_built eq_refl).
  - apply list_elem_of_here.
  - simpl. do 2 apply list_elem_of_further. apply list_elem_of_here.
  - reflexivity.
  - reflexivity.
Defined.

Lemma Handle_panics_iff_witness :
  malformed "/x/:id|("
  ∧ (∃ st', Handle mux0 "/x/:id|(" (say "x") ["POST"] world0 = Panicked st')
  ∧ tables brokenWorld !! routes mux0
    = Some [mkRoute mux0 "/x/:id|(" (say "x") "POST"]
  ∧ ServeHTTP mux0 brokenWorld recorder (request "POST" "/x/1") = None.
Proof.
  assert (Hbad : malformed "/x/:id|(").
  { exists ":id|(", ":id", "(". split; [|by vm_compute].
    simpl. do 2 apply list_elem_of_further. apply list_elem_of_here. }
  destruct (Handle_panics_iff mux0 "/x/:id|(" (say "x") ["POST"] world0)
    as (Hiff & _ & Htable).
  refine (conj Hbad (conj (proj2 Hiff (or_intror Hbad)) (conj _ eq_refl))).
  exact (Htable [] eq_refl).
Defined.

Lemma Handle_changes_only_its_table_witness :
  0 ≠ routes (New 1)
  ∧ tables (world_of (Handle (New 1) "/b/:n|[a-z]" (say "b") ["POST"]
                        (New_world 1 usersWorld))) !! 0
    = tables (New_world 1 usersWorld) !! 0
  ∧ rxPatterns (world_of (Handle (New 1) "/b/:n|[a-z]" (say "b") ["POST"]
                            (New_world 1 usersWorld))) !! "[0-9]+"
    = Some digitsRe.
Proof.
  assert (Hne : 0 ≠ routes (New 1)) by discriminate.
  destruct (Handle_changes_only_its_table (New 1) "/b/:n|[a-z]" (say "b")
              ["POST"] (New_world 1 usersWorld)) as (Hframe & _ & _ & Hkeep).
  refine (conj Hne (conj (Hframe 0 Hne) _)).
  apply Hkeep.
  - exact (proj2 (built_invariants _ usersWorld_built)).
  - vm_compute. reflexivity.
Defined.

Lemma Handle_without_methods_registers_all_witness :
  tables world0 !! routes mux0 = Some []
  ∧ fmap (M := list) method
      <$> (tables (registered "/all" (say "all") [] world0) !! routes mux0)
    = Some ["DELETE"; "GET"; "HEAD"; "OPTIONS"; "PATCH"; "POST"; "PUT"; "TRACE"].
Proof.
  assert (Hold : tables world0 !! routes mux0 = Some []) by reflexivity.
  destruct (Handle_without_methods_registers_all mux0 "/all" (say "all")
              world0 [] Hold) as [Htable Hmethods].
  refine (conj Hold _). unfold registered. rewrite Htable.
  exact (f_equal Some Hmethods).
Defined.

Lemma Handle_registers_each_given_method_once_witness :
  tables world0 !! routes mux0 = Some []
  ∧ ["get"] ≠ []
  ∧ contains ["get"] MethodGet && negb (contains ["get"] MethodHead) = false
  ∧ tables lowerWorld !! routes mux0 = Some [mkRoute mux0 "/p" (say "p") "get"]
  ∧ method (mkRoute mux0 "/p" (say "p") "get") = "GET".
Proof.
  assert (Hold : tables world0 !! routes mux0 = Some []) by reflexivity.
  assert (Hne : ["get"] ≠ []) by discriminate.
  destruct (Handle_registers_each_given_method_once mux0 "/p" (say "p")
              ["get"] world0 [] Hold Hne eq_refl) as [Htable _].
  exact (conj Hold (conj Hne (conj eq_refl (conj Htable eq_refl)))).
Defined.

Lemma wrap_after_Use_witness :
  middleware mux0 = []
  ∧ wrap (Use mux0 [tag "A"]) (say "H") = tag "A" (say "H")
  ∧ wrap (Use (Use mux0 [tag "A"]) [tag "B"]) (say "H")
    = wrap (Use mux0 [tag "A"]) (tag "B" (say "H")).
Proof.
  refine (conj eq_refl (conj _ _)).
  - exact (proj2 (proj2 (proj2 (wrap_after_Use mux0 [tag "A"] [] (say "H")))
                    eq_refl)).
  - exact (proj1 (wrap_after_Use (Use mux0 [tag "A"]) [tag "B"] [] (say "H"))).
Defined.

Lemma lower_case_request_method_reaches_no_route_witness :
  strings.isASCII "post" = true
  ∧ hasLower (method (mkRoute mux0 "/users/:id|[0-9]+" (say "user") "post"))
    = false
  ∧ hasLower (Method (request "post" "/users/42")) = true
  ∧ (Code <$> ServeHTTP mux0 usersWorld recorder (request "post" "/users/42"))
    = Some (Some 405).
Proof.
  destruct lower_case_request_method_reaches_no_route as [Hupper Hserve].
  assert (Hrs : tables usersWorld !! routes mux0 = Some [usersRoute])
    by reflexivity.
  pose proof (proj1 (built_invariants _ usersWorld_built) _ _ Hrs) as Hrx.
  refine (conj eq_refl (conj (Hupper _ _ _ "post" eq_refl) (conj eq_refl _))).
  rewrite (Hserve mux0 usersWorld recorder (request "post" "/users/42")
             [usersRoute] Hrs Hrx).
  - reflexivity.
  - repeat constructor.
  - reflexivity.
Defined.

Lemma registered_route_is_served_witness :
  World_ok world0
  ∧ Handle mux0 "/hello" (say "hello") ["POST"] world0 = Done helloWorld
  ∧ ServeHTTP (Use mux0 [tag "A"]) helloWorld recorder (request "POST" "/hello")
    = Some (say "hello" recorder (WithContext (request "POST" "/hello") [])).
Proof.
  assert (Hok : World_ok world0) by apply New_World_ok.
  assert (Hrun : Handle mux0 "/hello" (say "hello") ["POST"] world0
                 = Done helloWorld) by reflexivity.
  refine (conj Hok (conj Hrun _)).
  apply (registered_route_is_served mux0 (Use mux0 [tag "A"]) "/hello"
           (say "hello") "POST" world0 helloWorld [] recorder
           (request "POST" "/hello") [] Hok eq_refl Hrun eq_refl).
  - intros rt Hrt. by apply elem_of_nil in Hrt.
  - reflexivity.
  - reflexivity.
Defined.
